(** * Feature engineering of the datmo tutorials

    A shallow embedding of the data-preparation code of two tutorials:

    - [src/otto-xgboost-R/notebook.Rmd], chunk [classToIntegers]: the
      conversion of the Otto class names to zero-based labels;
    - [src/kaggle-titanic/sdk/.ipynb_checkpoints/experimentation-checkpoint.ipynb]:
      the Titanic cells that derive, impute, encode and bucket the columns
      before the matrix is given to TPOT.

    Conventions. A data frame is the list of its rows, a row is a record of
    its cells. A float64 cell read from a CSV file is a rational number or
    missing ([None], pandas' NaN); arithmetic on such cells is exact, the
    rounding of float64 is not modelled. An int64 cell is an integer, and
    int64 arithmetic wraps around ([wrap64]). A Python or R call that can
    raise returns a [result]. *)

From Stdlib Require Import ZArith QArith Qround String Ascii List Lia Lqa Bool.
From stdpp Require Import gmap strings.
Import ListNotations.

Open Scope string_scope.
Open Scope Z_scope.

(** ** Otto: class names to labels *)

Module Otto.

(** An element of an R integer or numeric vector: a number or [NA]. *)
Inductive r_num : Type :=
| NA : r_num
| Num : Z -> r_num.

Definition INT_MAX : Z := 2147483647.

(** [gsub(pattern, replacement, x)] for a pattern without regular-expression
    operators, as ['Class_'] is: every occurrence, scanning from the left,
    is replaced and the scan goes on after it. [skip] counts the characters
    of a matched occurrence that are still to be passed over. *)
Fixpoint gsub_from (pattern replacement : string) (skip : nat) (x : string) : string :=
  match x with
  | EmptyString => EmptyString
  | String c rest =>
      match skip with
      | S k => gsub_from pattern replacement k rest
      | O =>
          if String.prefix pattern x
          then replacement ++ gsub_from pattern replacement (String.length pattern - 1) rest
          else String c (gsub_from pattern replacement 0 rest)
      end
  end.

Definition gsub (pattern replacement x : string) : string :=
  gsub_from pattern replacement 0 x.

(** C's [isspace] in the C locale. *)
Definition isspace (c : ascii) : bool :=
  let n := nat_of_ascii c in
  (n =? 32)%nat || ((9 <=? n)%nat && (n <=? 13)%nat).

Definition isdigit (c : ascii) : bool :=
  let n := nat_of_ascii c in
  (48 <=? n)%nat && (n <=? 57)%nat.

Fixpoint isBlankString (s : string) : bool :=
  match s with
  | EmptyString => true
  | String c rest => isspace c && isBlankString rest
  end.

Fixpoint skip_space (s : string) : string :=
  match s with
  | EmptyString => EmptyString
  | String c rest => if isspace c then skip_space rest else s
  end.

Fixpoint has_digit (s : string) : bool :=
  match s with
  | EmptyString => false
  | String c rest => isdigit c || has_digit rest
  end.

Fixpoint all_digits (s : string) : bool :=
  match s with
  | EmptyString => true
  | String c rest => isdigit c && all_digits rest
  end.

(** The digit loop of [R_strtod], [ans = 10 * ans + digit], over a run of
    decimal digits: the value read so far and the text after the run. *)
Fixpoint read_digits (ans : Z) (p : string) : Z * string :=
  match p with
  | EmptyString => (ans, EmptyString)
  | String c rest =>
      if isdigit c
      then read_digits (10 * ans + (Z.of_nat (nat_of_ascii c) - 48)) rest
      else (ans, p)
  end.

Definition digits_value (s : string) : Z := fst (read_digits 0 s).

(** [R_strtod] on a plain decimal integer: blanks, an optional sign, one or
    more digits, and nothing but blanks after them ([isBlankString(endp)]).
    [None] when the text has another shape. *)
Definition strtod_integer (s : string) : option Z :=
  let p := skip_space s in
  let '(sign, p) :=
    match p with
    | String "-"%char rest => (-1, rest)
    | String "+"%char rest => (1, rest)
    | _ => (1, p)
    end in
  match p with
  | EmptyString => None
  | String c _ =>
      if isdigit c
      then let '(ans, endp) := read_digits 0 p in
           if isBlankString endp then Some (sign * ans) else None
      else None
  end.

Section AsInteger.

(** R reads more numerals than plain decimal integers: fractions, exponents
    and hexadecimal. What [as.integer] gives on a text that holds a digit
    and is not a plain decimal integer is left open: it is the parameter
    [other]. Whatever the text, the outcome is an element of an integer
    vector, a number or [NA] (with a warning), never an error. *)
Variable other : string -> r_num.

(** [as.integer] on one character string ([String2Integer] after
    [R_strtod]). A text without any digit is no number (["NA"], ["NaN"] and
    ["Inf"] end as [NA] too); a number outside [-INT_MAX .. INT_MAX] is
    [NA]. *)
Definition as_integer (s : string) : r_num :=
  if negb (has_digit s) then NA
  else match strtod_integer s with
       | Some y => if (INT_MAX + 1 <=? y) || (y <=? - INT_MAX - 1) then NA else Num y
       | None => other s
       end.

(** [{as.integer(.) - 1}]: the subtraction is done on doubles, where it is
    exact for every 32-bit integer; [NA - 1] is [NA]. *)
Definition minus_one (v : r_num) : r_num :=
  match v with
  | NA => NA
  | Num z => Num (z - 1)
  end.

(** The chunk [classToIntegers], on the label column:
    [y <- ... %>% gsub('Class_','',.) %>% {as.integer(.) -1}]. *)
Definition classToIntegers (column : list string) : list r_num :=
  map (fun name => minus_one (as_integer (gsub "Class_" "" name))) column.

End AsInteger.

(** The shape the specification names: ["Class_"] followed by one or more
    decimal digits. *)
Definition class_form (s : string) : bool :=
  match s with
  | String "C" (String "l" (String "a" (String "s" (String "s" (String "_" rest))))) =>
      all_digits rest && negb (String.eqb rest "")
  | _ => false
  end.

(** What [max] returns on a numeric vector: a number, [NA], or minus
    infinity. *)
Inductive r_real : Type :=
| NA_real : r_real
| NegInf : r_real
| Real : Z -> r_real.

(** One turn of the loop of [rmax] (summary.c) with [na.rm = FALSE]: the
    running value is absent until an element has been seen, an [NA]
    element makes it [NA], and nothing replaces an [NA]. *)
Definition max_step (s : option r_num) (x : r_num) : option r_num :=
  match x with
  | NA => Some NA
  | Num z =>
      match s with
      | None => Some (Num z)
      | Some NA => Some NA
      | Some (Num m) => Some (if m <? z then Num z else Num m)
      end
  end.

(** [max(y)]: minus infinity (with a warning) when no element was seen. *)
Definition r_max (y : list r_num) : r_real :=
  match fold_left max_step y None with
  | None => NegInf
  | Some NA => NA_real
  | Some (Num z) => Real z
  end.

(** The chunk [crossValidation]: [numberOfClasses <- max(y) + 1]. *)
Definition numberOfClasses (y : list r_num) : r_real :=
  match r_max y with
  | Real z => Real (z + 1)
  | NA_real => NA_real
  | NegInf => NegInf
  end.

End Otto.

(** ** Titanic: the values of the frames *)

Module Titanic.

(** A call that may raise: the notebook has no handler, so an exception
    ends the run. Every exception met here is a [ValueError]. *)
Inductive result (A : Type) : Type :=
| Ok : A -> result A
| ValueError : string -> result A.
Arguments Ok {A} _.
Arguments ValueError {A} _.

Definition bind {A B : Type} (c : result A) (k : A -> result B) : result B :=
  match c with
  | Ok a => k a
  | ValueError msg => ValueError msg
  end.

Notation "'do' x <- c ; k" := (bind c (fun x => k))
  (at level 10, x pattern, c at level 100, k at level 200).

(** [[f(x) for x in xs]] where [f] may raise: the first exception wins. *)
Fixpoint for_each {A B : Type} (f : A -> result B) (xs : list A) : result (list B) :=
  match xs with
  | [] => Ok []
  | x :: rest =>
      do y <- f x;
      do ys <- for_each f rest;
      Ok (y :: ys)
  end.

(** int64 arithmetic of numpy: the result is reduced into
    [-2^63 .. 2^63 - 1] without any signal. *)
Definition int64_min : Z := - 2 ^ 63.
Definition int64_max : Z := 2 ^ 63 - 1.
Definition wrap64 (z : Z) : Z := (z + 2 ^ 63) mod 2 ^ 64 - 2 ^ 63.
Definition in_int64 (z : Z) : Prop := int64_min <= z <= int64_max.

(** A float64 that a computation produced: besides the numbers, the two
    infinities and NaN, which numpy returns for a division by zero. *)
Inductive float64 : Type :=
| NaN : float64
| Inf : bool -> float64
| Fin : Q -> float64.

Definition of_cell (x : option Q) : float64 :=
  match x with
  | Some q => Fin q
  | None => NaN
  end.

Definition is_nan (x : float64) : bool :=
  match x with
  | NaN => true
  | _ => false
  end.

(** Python's [int(x)] and numpy's [astype(int)] on a number: the fraction
    is dropped, towards zero. *)
Definition trunc (q : Q) : Z :=
  if Qle_bool 0 q then Qfloor q else Qceiling q.

(** [Series.astype(int)] on one float64 cell: pandas refuses a missing
    value. *)
Definition astype_int (x : option Q) : result Z :=
  match x with
  | Some q => Ok (trunc q)
  | None => ValueError "Cannot convert NA to integer"
  end.

(** [Series.fillna(value)] and [Series.map(dict)] on one cell. A key that
    the dictionary lacks, and a missing cell, give a missing cell. *)
Definition fillna {A : Type} (value : option A) (x : option A) : option A :=
  match x with
  | Some a => Some a
  | None => value
  end.

Definition series_map (mapping : gmap string Z) (x : option string) : option Q :=
  match x with
  | Some key => inject_Z <$> mapping !! key
  | None => None
  end.

(** Comparisons of a float64 cell with a number: each is false on NaN. *)
Definition le_cell (x : option Q) (c : Q) : bool :=
  match x with
  | Some q => Qle_bool q c
  | None => false
  end.

Definition gt_cell (x : option Q) (c : Q) : bool :=
  match x with
  | Some q => negb (Qle_bool q c)
  | None => false
  end.

(** [df.loc[mask, column] = value] on one row. *)
Definition loc_set {A : Type} (mask : bool) (value old : A) : A :=
  if mask then value else old.

(** *** The rows as [read_csv] gives them

    The columns and their types are those [train.info()] prints; the ages,
    the fares, the cabins and the ports may be missing. The label column
    [Survived] of the training file is not touched by any cell below and
    is left out. *)
Module Raw.
Record row : Type := {
  PassengerId : Z;
  Pclass : Z;
  Name : string;
  Sex : string;
  Age : option Q;
  SibSp : Z;
  Parch : Z;
  Ticket : string;
  Fare : option Q;
  Cabin : option string;
  Embarked : option string
}.
End Raw.

(** The two counts of a passenger are counts: not negative, and far from
    the end of int64. *)
Definition counts_ok (r : Raw.row) : Prop :=
  0 <= Raw.SibSp r /\ 0 <= Raw.Parch r /\ Raw.SibSp r + Raw.Parch r + 2 <= int64_max.

(** *** Cell 4 and cell 5: the family

    [dataset['FamilySize'] = dataset['SibSp'] + dataset['Parch'] + 1] *)
Definition FamilySize (r : Raw.row) : Z :=
  wrap64 (wrap64 (Raw.SibSp r + Raw.Parch r) + 1).

(** [dataset['IsAlone'] = 0]
    [dataset.loc[dataset['FamilySize'] == 1, 'IsAlone'] = 1] *)
Definition IsAlone (FamilySize : Z) : Z :=
  let IsAlone := 0 in
  loc_set (FamilySize =? 1) 1 IsAlone.

(** *** Cell 6: the port

    [dataset['Embarked'] = dataset['Embarked'].fillna('S')] *)
Definition fill_embarked (r : Raw.row) : option string :=
  fillna (Some "S") (Raw.Embarked r).

(** *** Cell 7: the fare

    [Series.median()]: the missing cells are skipped, the rest is sorted,
    and the middle one, or the mean of the two middle ones, is returned;
    NaN when nothing is left. *)
Fixpoint insert_sorted (x : Q) (sorted : list Q) : list Q :=
  match sorted with
  | [] => [x]
  | y :: rest => if Qle_bool x y then x :: sorted else y :: insert_sorted x rest
  end.

Definition sort (values : list Q) : list Q :=
  fold_right insert_sorted [] values.

Definition present {A : Type} (column : list (option A)) : list A :=
  omap id column.

Definition median (column : list (option Q)) : option Q :=
  let sorted := sort (present column) in
  let n := length sorted in
  match n with
  | O => None
  | _ =>
      if Nat.even n
      then Some ((nth (n / 2 - 1) sorted 0 + nth (n / 2) sorted 0) / 2)%Q
      else Some (nth (n / 2) sorted 0%Q)
  end.

(** [dataset['Fare'] = dataset['Fare'].fillna(train['Fare'].median())]:
    the new fare column of [dataset], given the fare column of [train] as
    it is when the line runs. *)
Definition fill_fare (train_Fare : list (option Q)) (dataset : list Raw.row) : list (option Q) :=
  map (fun r => fillna (median train_Fare) (Raw.Fare r)) dataset.

(** *** Cell 8: the age

    [Series.mean()] and [Series.std()] skip the missing cells; [std] is the
    sample deviation (one degree of freedom less), the square root of
    [variance]. Either is NaN when too few cells are left. *)
Definition Qsum (values : list Q) : Q := fold_right Qplus 0%Q values.

Definition mean (column : list (option Q)) : option Q :=
  let values := present column in
  match values with
  | [] => None
  | _ => Some (Qsum values / inject_Z (Z.of_nat (length values)))%Q
  end.

Definition variance (column : list (option Q)) : option Q :=
  let values := present column in
  match mean column with
  | Some m =>
      if (length values <=? 1)%nat then None
      else Some (Qsum (map (fun x => (x - m) * (x - m)) values)
                 / inject_Z (Z.of_nat (length values - 1)))%Q
  | None => None
  end.

(** The standard deviation is a square root and has no exact value among
    the rationals. It is kept as its square [v]; the real numbers
    [m - sqrt v] and [m + sqrt v] are handled through their comparisons
    with an integer [k], which are exact. *)
Definition Qsquare (x : Q) : Q := (x * x)%Q.

(** [k <= m - sqrt v] *)
Definition le_sub_sqrt (k : Z) (m v : Q) : bool :=
  Qle_bool 0 (m - inject_Z k) && Qle_bool v (Qsquare (m - inject_Z k)).

(** [m - sqrt v <= k] *)
Definition sub_sqrt_le (k : Z) (m v : Q) : bool :=
  Qle_bool (m - inject_Z k) 0 || Qle_bool (Qsquare (m - inject_Z k)) v.

(** [k <= m + sqrt v] *)
Definition le_add_sqrt (k : Z) (m v : Q) : bool :=
  Qle_bool (inject_Z k - m) 0 || Qle_bool (Qsquare (inject_Z k - m)) v.

(** [m + sqrt v <= k] *)
Definition add_sqrt_le (k : Z) (m v : Q) : bool :=
  Qle_bool 0 (inject_Z k - m) && Qle_bool v (Qsquare (inject_Z k - m)).

(** The floors of [m - sqrt v] and [m + sqrt v]: one of two neighbouring
    integers, told apart by a comparison. *)
Definition floor_sub_sqrt (m v : Q) : Z :=
  let k := Qfloor m - Z.sqrt (Qfloor v) in
  if le_sub_sqrt k m v then k else k - 1.

Definition floor_add_sqrt (m v : Q) : Z :=
  let k := Qfloor m + Z.sqrt (Qfloor v) in
  if le_add_sqrt (k + 1) m v then k + 1 else k.

(** [int(age_avg - age_std)] and [int(age_avg + age_std)]: Python's [int]
    drops the fraction, so below zero it rounds up. *)
Definition int_sub_sqrt (m v : Q) : Z :=
  let k := floor_sub_sqrt m v in
  if le_sub_sqrt 0 m v || sub_sqrt_le k m v then k else k + 1.

Definition int_add_sqrt (m v : Q) : Z :=
  let k := floor_add_sqrt m v in
  if le_add_sqrt 0 m v || add_sqrt_le k m v then k else k + 1.

(** The generator behind [np.random]: the raw words it will give, in
    order. Using [n] of them leaves the rest. *)
Definition RandomState : Type := nat -> N.

(** [np.random.randint(low, high, size=size)] with [low < high] already
    checked: each draw is an integer of [low .. high - 1], fixed by one raw
    word. *)
Definition draw (low high : Z) (word : N) : Z :=
  low + Z.of_N word mod (high - low).

Definition randint (low high : Z) (size : nat) (state : RandomState)
  : list Z * RandomState :=
  (map (fun i => draw low high (state i)) (seq 0 size),
   fun i => state (i + size)%nat).

(** [column[np.isnan(column)] = values]: the missing cells take the values
    in order. pandas raises when the two counts differ. *)
Fixpoint set_missing (column : list (option Q)) (values : list Z) : result (list Q) :=
  match column with
  | [] =>
      match values with
      | [] => Ok []
      | _ :: _ => ValueError "cannot assign mismatch length to masked array"
      end
  | Some age :: rest =>
      do filled <- set_missing rest values;
      Ok (age :: filled)
  | None :: rest =>
      match values with
      | [] => ValueError "cannot assign mismatch length to masked array"
      | v :: more =>
          do filled <- set_missing rest more;
          Ok (inject_Z v :: filled)
      end
  end.

Definition count_missing {A : Type} (column : list (option A)) : nat :=
  length (List.filter (fun x => match x with None => true | Some _ => false end) column).

(** The body of the loop of cell 8 on one data set: the new age column and
    the state of the generator afterwards. [randint] converts its bounds
    with [int], which raises on NaN, and raises when the range is empty or
    leaves int64. *)
Definition impute_age (state : RandomState) (dataset : list Raw.row)
  : result (list Z * RandomState) :=
  let Age := map Raw.Age dataset in
  match mean Age, variance Age with
  | Some age_avg, Some age_var =>
      let age_null_count := count_missing Age in
      let low := int_sub_sqrt age_avg age_var in
      let high := int_add_sqrt age_avg age_var in
      if low <? int64_min then ValueError "low is out of bounds for int64"
      else if int64_max + 1 <? high then ValueError "high is out of bounds for int64"
      else if high <=? low then ValueError "low >= high"
      else
        let '(age_null_random_list, state') := randint low high age_null_count state in
        do filled <- set_missing Age age_null_random_list;
        Ok (map trunc filled, state')
  | _, _ => ValueError "cannot convert float NaN to integer"
  end.

(** *** Cell 9: the title

    [re.search(' ([A-Za-z]+)\.', name)] tries the start positions from the
    left. At one position the pattern asks for a space, then takes the
    longest run of letters, which must not be empty and must be followed by
    a period; a shorter run cannot help, since the character after it would
    be a letter. *)
Definition is_letter (c : ascii) : bool :=
  let n := nat_of_ascii c in
  ((65 <=? n)%nat && (n <=? 90)%nat) || ((97 <=? n)%nat && (n <=? 122)%nat).

Fixpoint letters_run (s : string) : string * string :=
  match s with
  | EmptyString => (EmptyString, EmptyString)
  | String c rest =>
      if is_letter c
      then let '(run, after) := letters_run rest in (String c run, after)
      else (EmptyString, s)
  end.

(** The match of the pattern that starts at the head of [s], as its
    group 1. *)
Definition match_here (s : string) : option string :=
  match s with
  | String " " rest =>
      match letters_run rest with
      | (String c run, String "." _) => Some (String c run)
      | _ => None
      end
  | _ => None
  end.

Fixpoint title_search (name : string) : option string :=
  match match_here name with
  | Some group1 => Some group1
  | None =>
      match name with
      | EmptyString => None
      | String _ rest => title_search rest
      end
  end.

Definition get_title (name : string) : string :=
  match title_search name with
  | Some group1 => group1
  | None => ""
  end.

(** *** Cell 10: the rare titles

    [Series.replace(to_replace, value)] on one cell: a cell equal to one of
    the listed values becomes [value]. *)
Definition replace (to_replace : list string) (value : string) (x : string) : string :=
  if existsb (String.eqb x) to_replace then value else x.

Definition rare_titles : list string :=
  ["Lady"; "Countess"; "Capt"; "Col"; "Don"; "Dr"; "Major"; "Rev"; "Sir";
   "Jonkheer"; "Dona"].

Definition group_title (Title : string) : string :=
  let Title := replace rare_titles "Rare" Title in
  let Title := replace ["Mlle"] "Miss" Title in
  let Title := replace ["Ms"] "Miss" Title in
  let Title := replace ["Mme"] "Mrs" Title in
  Title.

(** *** The frames after the exploratory cells 4 to 10

    The columns [CategoricalFare] and [CategoricalAge], which cells 7 and 8
    add to [train] for display and which cells 13 and 18 drop, play no part
    and are left out. *)
Module Eda.
Record row : Type := {
  PassengerId : Z;
  Pclass : Z;
  Name : string;
  Sex : string;
  Age : Z;
  SibSp : Z;
  Parch : Z;
  Ticket : string;
  Fare : option Q;
  Cabin : option string;
  Embarked : option string;
  FamilySize : Z;
  IsAlone : Z;
  Title : string
}.
End Eda.

(** One row after the cells, from the raw row and the two cells that
    depend on the whole column. *)
Definition explored (r : Raw.row) (fare : option Q) (age : Z) : Eda.row :=
  {| Eda.PassengerId := Raw.PassengerId r;
     Eda.Pclass := Raw.Pclass r;
     Eda.Name := Raw.Name r;
     Eda.Sex := Raw.Sex r;
     Eda.Age := age;
     Eda.SibSp := Raw.SibSp r;
     Eda.Parch := Raw.Parch r;
     Eda.Ticket := Raw.Ticket r;
     Eda.Fare := fare;
     Eda.Cabin := Raw.Cabin r;
     Eda.Embarked := fill_embarked r;
     Eda.FamilySize := FamilySize r;
     Eda.IsAlone := IsAlone (FamilySize r);
     Eda.Title := group_title (get_title (Raw.Name r)) |}.

(** [zip] that, like a column assignment, needs the lengths to agree. *)
Fixpoint assemble (rows : list Raw.row) (fares : list (option Q)) (ages : list Z)
  : list Eda.row :=
  match rows, fares, ages with
  | r :: rows', f :: fares', a :: ages' => explored r f a :: assemble rows' fares' ages'
  | _, _, _ => []
  end.

(** Cells 4 to 10, each a loop [for dataset in full_data] over
    [[train, test]]. In cell 7 the median is taken from [train] anew in
    each turn: in the second turn from the fares already filled. In cell 8
    the generator goes from [train] to [test]. *)
Definition explore (state : RandomState) (train test : list Raw.row)
  : result (list Eda.row * list Eda.row * RandomState) :=
  let train_Fare := fill_fare (map Raw.Fare train) train in
  let test_Fare := fill_fare train_Fare test in
  do (train_Age, state1) <- impute_age state train;
  do (test_Age, state2) <- impute_age state1 test;
  Ok (assemble train train_Fare train_Age, assemble test test_Fare test_Age, state2).

(** *** Cells 12 and 17: the dictionaries and the buckets *)
Definition sex_mapping : gmap string Z := {[ "female" := 0; "male" := 1 ]}.

Definition title_mapping : gmap string Z :=
  {[ "Mr" := 1; "Miss" := 2; "Mrs" := 3; "Master" := 4; "Rare" := 5 ]}.

Definition embarked_mapping : gmap string Z := {[ "S" := 0; "C" := 1; "Q" := 2 ]}.

(** [dataset['Title'] = dataset['Title'].map(title_mapping)]
    [dataset['Title'] = dataset['Title'].fillna(0)] *)
Definition map_title (Title : option string) : option Q :=
  let Title := series_map title_mapping Title in
  let Title := fillna (Some 0%Q) Title in
  Title.

(** The four assignments to [Fare], one after the other on the same
    column: each mask reads what the assignments before it left. *)
Definition bucket_fare (Fare : option Q) : option Q :=
  let Fare := loc_set (le_cell Fare 7.91) (Some 0%Q) Fare in
  let Fare := loc_set (gt_cell Fare 7.91 && le_cell Fare 14.454) (Some 1%Q) Fare in
  let Fare := loc_set (gt_cell Fare 14.454 && le_cell Fare 31) (Some 2%Q) Fare in
  let Fare := loc_set (gt_cell Fare 31) (Some 3%Q) Fare in
  Fare.

(** The five assignments to [Age], an int64 column since cell 8. *)
Definition bucket_age (Age : Z) : Z :=
  let Age := loc_set (Age <=? 16) 0 Age in
  let Age := loc_set ((16 <? Age) && (Age <=? 32)) 1 Age in
  let Age := loc_set ((32 <? Age) && (Age <=? 48)) 2 Age in
  let Age := loc_set ((48 <? Age) && (Age <=? 64)) 3 Age in
  let Age := loc_set (64 <? Age) 4 Age in
  Age.

(** float64 divided by int64, as numpy does it: a zero divisor gives an
    infinity, or NaN for zero over zero, and no exception. *)
Definition divide (x : option Q) (d : Z) : float64 :=
  match x with
  | None => NaN
  | Some q =>
      if d =? 0
      then (if Qeq_bool q 0 then NaN else Inf (negb (Qle_bool 0 q)))
      else Fin (q / inject_Z d)
  end.

(** A cell of any column, for the step from a frame to [.values]. *)
Inductive value : Type :=
| Int : Z -> value
| Float : float64 -> value
| Str : option string -> value.

Definition missing (v : value) : bool :=
  match v with
  | Int _ => false
  | Float x => is_nan x
  | Str None => true
  | Str (Some _) => false
  end.

(** [frame.drop(labels, axis = 1).values] on one row, given as its
    labelled cells in the order of the columns. *)
Definition drop (labels : list string) (cells : list (string * value)) : list (string * value) :=
  List.filter (fun cell => negb (existsb (String.eqb (fst cell)) labels)) cells.

Definition values (cells : list (string * value)) : list value := map snd cells.

(** *** The first selection: cells 12 and 13 *)
Module V1.
Record row : Type := {
  PassengerId : Z;
  Pclass : Z;
  Name : string;
  Sex : Z;
  Age : Z;
  SibSp : Z;
  Parch : Z;
  Ticket : string;
  Fare : Z;
  Cabin : option string;
  Embarked : Z;
  FamilySize : Z;
  IsAlone : Z;
  Title : option Q
}.

(** The body of the loop of cell 12 on one row. *)
Definition clean_row (r : Eda.row) : result row :=
  do sex <- astype_int (series_map sex_mapping (Some (Eda.Sex r)));
  let title := map_title (Some (Eda.Title r)) in
  do embarked <- astype_int (series_map embarked_mapping (Eda.Embarked r));
  do fare <- astype_int (bucket_fare (Eda.Fare r));
  let age := bucket_age (Eda.Age r) in
  Ok {| PassengerId := Eda.PassengerId r;
        Pclass := Eda.Pclass r;
        Name := Eda.Name r;
        Sex := sex;
        Age := age;
        SibSp := Eda.SibSp r;
        Parch := Eda.Parch r;
        Ticket := Eda.Ticket r;
        Fare := fare;
        Cabin := Eda.Cabin r;
        Embarked := embarked;
        FamilySize := Eda.FamilySize r;
        IsAlone := Eda.IsAlone r;
        Title := title |}.

Definition clean (dataset : list Eda.row) : result (list row) :=
  for_each clean_row dataset.

Definition cells (r : row) : list (string * value) :=
  [("PassengerId", Int (PassengerId r)); ("Pclass", Int (Pclass r));
   ("Name", Str (Some (Name r))); ("Sex", Int (Sex r)); ("Age", Int (Age r));
   ("SibSp", Int (SibSp r)); ("Parch", Int (Parch r));
   ("Ticket", Str (Some (Ticket r))); ("Fare", Int (Fare r));
   ("Cabin", Str (Cabin r)); ("Embarked", Int (Embarked r));
   ("FamilySize", Int (FamilySize r)); ("IsAlone", Int (IsAlone r));
   ("Title", Float (of_cell (Title r)))].

Definition drop_elements : list string :=
  ["PassengerId"; "Name"; "Ticket"; "Cabin"; "SibSp"; "Parch"; "FamilySize"].

(** Cell 13: the columns are dropped and the frame becomes a matrix. *)
Definition select (dataset : list row) : list (list value) :=
  map (fun r => values (drop drop_elements (cells r))) dataset.
End V1.

(** *** The second selection: cells 17 and 18 *)
Module V2.
Record row : Type := {
  PassengerId : Z;
  Pclass : Z;
  Name : string;
  Sex : Z;
  Age : Z;
  SibSp : Z;
  Parch : Z;
  Ticket : string;
  Fare : option Q;
  Cabin : option string;
  Embarked : Z;
  FamilySize : Z;
  IsAlone : Z;
  Title : option Q;
  FarePerPerson : float64
}.

(** [dataset['FarePerPerson']=dataset['Fare']/(dataset['FamilySize']+1)] *)
Definition divisor (r : Eda.row) : Z := wrap64 (Eda.FamilySize r + 1).

Definition clean_row (r : Eda.row) : result row :=
  do sex <- astype_int (series_map sex_mapping (Some (Eda.Sex r)));
  let title := map_title (Some (Eda.Title r)) in
  do embarked <- astype_int (series_map embarked_mapping (Eda.Embarked r));
  let fare_per_person := divide (Eda.Fare r) (divisor r) in
  let age := bucket_age (Eda.Age r) in
  Ok {| PassengerId := Eda.PassengerId r;
        Pclass := Eda.Pclass r;
        Name := Eda.Name r;
        Sex := sex;
        Age := age;
        SibSp := Eda.SibSp r;
        Parch := Eda.Parch r;
        Ticket := Eda.Ticket r;
        Fare := Eda.Fare r;
        Cabin := Eda.Cabin r;
        Embarked := embarked;
        FamilySize := Eda.FamilySize r;
        IsAlone := Eda.IsAlone r;
        Title := title;
        FarePerPerson := fare_per_person |}.

Definition clean (dataset : list Eda.row) : result (list row) :=
  for_each clean_row dataset.

Definition cells (r : row) : list (string * value) :=
  [("PassengerId", Int (PassengerId r)); ("Pclass", Int (Pclass r));
   ("Name", Str (Some (Name r))); ("Sex", Int (Sex r)); ("Age", Int (Age r));
   ("SibSp", Int (SibSp r)); ("Parch", Int (Parch r));
   ("Ticket", Str (Some (Ticket r))); ("Fare", Float (of_cell (Fare r)));
   ("Cabin", Str (Cabin r)); ("Embarked", Int (Embarked r));
   ("FamilySize", Int (FamilySize r)); ("IsAlone", Int (IsAlone r));
   ("Title", Float (of_cell (Title r)));
   ("FarePerPerson", Float (FarePerPerson r))].

Definition drop_elements : list string :=
  ["PassengerId"; "Name"; "Ticket"; "Cabin"; "SibSp"; "Parch"; "IsAlone"; "Fare"].

Definition select (dataset : list row) : list (list value) :=
  map (fun r => values (drop drop_elements (cells r))) dataset.
End V2.

(** *** The run of the notebook

    The feature matrices that reach TPOT (the label column that precedes
    them in the training matrix is split off by [train_copy[0::, 1::]]).
    The first pair is handed over after cell 13, the second after cell 18;
    an exception before a hand-over ends the run, so that hand-over does
    not take place. TPOT itself is outside the repository and is taken to
    return. *)
Record handed : Type := {
  train_matrix : list (list value);
  test_matrix : list (list value)
}.

Definition first_selection (train test : list Eda.row) : result handed :=
  do train_copy <- V1.clean train;
  do test_copy <- V1.clean test;
  Ok {| train_matrix := V1.select train_copy; test_matrix := V1.select test_copy |}.

Definition second_selection (train test : list Eda.row) : result handed :=
  do train_copy <- V2.clean train;
  do test_copy <- V2.clean test;
  Ok {| train_matrix := V2.select train_copy; test_matrix := V2.select test_copy |}.

(** The notebook from top to bottom: the first hand-over, and the outcome
    of the cells after it up to the second one. *)
Definition notebook (state : RandomState) (train test : list Raw.row)
  : result (handed * result handed) :=
  do (frames, _) <- explore state train test;
  let '(train, test) := frames in
  do first <- first_selection train test;
  Ok (first, second_selection train test).

(** *** A small run

    Rows of the two Kaggle files, among them passengers without an age, a
    fare or a port, and a generator whose every raw word is 5. *)
Definition passenger (id pclass : Z) (name sex : string) (age : option Q)
  (sibsp parch : Z) (ticket : string) (fare : option Q) (cabin embarked : option string)
  : Raw.row :=
  {| Raw.PassengerId := id; Raw.Pclass := pclass; Raw.Name := name; Raw.Sex := sex;
     Raw.Age := age; Raw.SibSp := sibsp; Raw.Parch := parch; Raw.Ticket := ticket;
     Raw.Fare := fare; Raw.Cabin := cabin; Raw.Embarked := embarked |}.

Definition braund : Raw.row :=
  passenger 1 3 "Braund, Mr. Owen Harris" "male" (Some 22%Q) 1 0 "A/5 21171"
    (Some 7.25%Q) None (Some "S").

Definition example_train : list Raw.row :=
  [braund;
   passenger 2 1 "Cumings, Mrs. John Bradley (Florence Briggs Thayer)" "female"
     (Some 38%Q) 1 0 "PC 17599" (Some 71.2833%Q) (Some "C85") (Some "C");
   passenger 6 3 "Moran, Mr. James" "male" None 0 0 "330877"
     (Some 8.4583%Q) None (Some "Q");
   passenger 8 3 "Palsson, Master. Gosta Leonard" "male" (Some 2%Q) 3 1 "349909"
     (Some 21.075%Q) None (Some "S");
   passenger 62 1 "Icard, Miss. Amelie" "female" (Some 38%Q) 0 0 "113572"
     (Some 80%Q) (Some "B28") None].

Definition storey : Raw.row :=
  passenger 1044 3 "Storey, Mr. Thomas" "male" (Some 60.5%Q) 0 0 "3701"
    None None (Some "S").

Definition example_test : list Raw.row :=
  [passenger 892 3 "Kelly, Mr. James" "male" (Some 34.5%Q) 0 0 "330911"
     (Some 7.8292%Q) None (Some "Q");
   storey;
   passenger 1306 1 "Oliva y Ocana, Dona. Fermina" "female" (Some 39%Q) 0 0
     "PC 17758" (Some 108.9%Q) (Some "C105") (Some "C");
   passenger 1308 3 "Ware, Mr. Frederick" "male" None 0 0 "359309"
     (Some 8.05%Q) None (Some "S")].

Definition example_state : RandomState := fun _ => 5%N.

Definition unwrap {A : Type} (default : A) (c : result A) : A :=
  match c with
  | Ok a => a
  | ValueError _ => default
  end.

Definition example_explored : list Eda.row * list Eda.row * RandomState :=
  unwrap ([], [], example_state) (explore example_state example_train example_test).

Definition example_train' : list Eda.row := fst (fst example_explored).
Definition example_test' : list Eda.row := snd (fst example_explored).
Definition example_state' : RandomState := snd example_explored.

(** The buckets as the specification words them: intervals closed on
    their upper edge. *)
Definition fare_code (fare : Q) (code : Z) : Prop :=
  ((fare <= 7.91)%Q -> code = 0) /\
  ((7.91 < fare)%Q /\ (fare <= 14.454)%Q -> code = 1) /\
  ((14.454 < fare)%Q /\ (fare <= 31)%Q -> code = 2) /\
  ((31 < fare)%Q -> code = 3).


(** The decoding that a dictionary determines: the key that carries the
    code. The notebook never decodes; this is the inverse the round trip of
    the specification speaks of. *)
Definition decode (mapping : gmap string Z) (code : Z) : option string :=
  fst <$> List.find (fun entry => snd entry =? code) (map_to_list mapping).

(** The pattern of the specification, "space, run of letters, period",
    somewhere in a name. *)
Fixpoint all_letters (s : string) : bool :=
  match s with
  | EmptyString => true
  | String c rest => is_letter c && all_letters rest
  end.

Definition title_at (name before title after : string) : Prop :=
  name = before ++ " " ++ title ++ "." ++ after /\
  title <> "" /\ all_letters title = true.

Definition title_pattern (name : string) : Prop :=
  exists before title after, title_at name before title after.






(** A matrix without a missing value. *)
Definition complete (matrix : list (list value)) : Prop :=
  Forall (Forall (fun v => missing v = false)) matrix.

Definition nothing_handed : handed := {| train_matrix := []; test_matrix := [] |}.

Definition example_run : handed * result handed :=
  unwrap (nothing_handed, Ok nothing_handed)
    (notebook example_state example_train example_test).

(** The pairs (frame read from the file, frame after the cells) of a run. *)
Definition frame_of (train test : list Raw.row) (train' test' : list Eda.row)
  (raw : list Raw.row) (out : list Eda.row) : Prop :=
  (raw = train /\ out = train') \/ (raw = test /\ out = test').

(** Notions for the median: a list in ascending order, and how many of
    its values lie below, or not above, a given one. *)
Fixpoint sorted (l : list Q) : Prop :=
  match l with
  | [] => True
  | x :: rest => Forall (Qle x) rest /\ sorted rest
  end.

Definition count_lt (v : Q) (l : list Q) : nat :=
  length (List.filter (fun x => negb (Qle_bool v x)) l).

Definition count_le (v : Q) (l : list Q) : nat :=
  length (List.filter (fun x => Qle_bool x v) l).

End Titanic.

(** * Properties *)

Import Otto Titanic.

(** ** Otto *)

Lemma digit_not_space c : isdigit c = true -> isspace c = false.
Proof.
  unfold isdigit, isspace. intros H.
  apply andb_true_iff in H as [H1 H2].
  apply Nat.leb_le in H1. apply Nat.leb_le in H2.
  apply orb_false_iff. split.
  - apply Nat.eqb_neq. lia.
  - apply andb_false_iff. right. apply Nat.leb_gt. lia.
Qed.

Lemma digit_range c :
  isdigit c = true -> 0 <= Z.of_nat (nat_of_ascii c) - 48 <= 9.
Proof.
  unfold isdigit. intros H.
  apply andb_true_iff in H as [H1 H2].
  apply Nat.leb_le in H1. apply Nat.leb_le in H2. lia.
Qed.

(** A run of digits is read to its end, and its value is not negative. *)
Lemma read_digits_all ds :
  all_digits ds = true ->
  forall ans, 0 <= ans ->
    snd (read_digits ans ds) = EmptyString /\ 0 <= fst (read_digits ans ds).
Proof.
  induction ds as [|c ds IH]; simpl; intros Hd ans Hans.
  - split; [reflexivity | exact Hans].
  - apply andb_true_iff in Hd as [Hc Hds]. rewrite Hc.
    apply IH; [exact Hds |]. pose proof (digit_range c Hc). lia.
Qed.

Lemma gsub_from_cons pattern replacement c rest :
  gsub_from pattern replacement 0 (String c rest) =
  if String.prefix pattern (String c rest)
  then replacement ++ gsub_from pattern replacement (String.length pattern - 1) rest
  else String c (gsub_from pattern replacement 0 rest).
Proof. reflexivity. Qed.

Lemma prefix_cons a s1 b s2 :
  String.prefix (String a s1) (String b s2) =
  if ascii_dec a b then String.prefix s1 s2 else false.
Proof. reflexivity. Qed.

(** No occurrence of the pattern starts at a digit, so a run of digits
    passes through [gsub] unchanged. *)
Lemma gsub_digits ds :
  all_digits ds = true -> gsub_from "Class_" "" 0 ds = ds.
Proof.
  induction ds as [|c ds IH]; intros Hd; [reflexivity |].
  cbn [all_digits] in Hd. apply andb_true_iff in Hd as [Hc Hds].
  rewrite gsub_from_cons, prefix_cons.
  destruct (ascii_dec "C" c) as [<- | _]; [discriminate Hc |].
  rewrite IH by exact Hds. reflexivity.
Qed.

Lemma gsub_class_digits ds :
  all_digits ds = true -> gsub "Class_" "" ("Class_" ++ ds) = ds.
Proof.
  intros Hd. unfold gsub. destruct ds as [|c ds]; [reflexivity |].
  change (gsub_from "Class_" "" 0 ("Class_" ++ String c ds))
    with (gsub_from "Class_" "" 0 (String c ds)).
  apply gsub_digits, Hd.
Qed.

Lemma as_integer_digits other ds :
  all_digits ds = true -> ds <> "" -> digits_value ds <= INT_MAX ->
  as_integer other ds = Num (digits_value ds).
Proof.
  intros Hd Hne Hmax. destruct ds as [|c ds]; [congruence |].
  pose proof Hd as Hd'. simpl in Hd'. apply andb_true_iff in Hd' as [Hc Hds].
  unfold as_integer. simpl has_digit. rewrite Hc. simpl negb.
  unfold strtod_integer. simpl skip_space. rewrite (digit_not_space c Hc).
  assert (Hsign : match String c ds with
                  | String "-"%char rest => (-1, rest)
                  | String "+"%char rest => (1, rest)
                  | _ => (1, String c ds)
                  end = (1, String c ds)).
  { destruct (ascii_dec c "-") as [-> | Hm]; [discriminate Hc |].
    destruct (ascii_dec c "+") as [-> | Hp]; [discriminate Hc |].
    destruct c as [[] [] [] [] [] [] [] []]; try reflexivity; congruence. }
  rewrite Hsign. rewrite Hc.
  destruct (read_digits_all (String c ds) Hd 0 ltac:(lia)) as [Hend Hpos].
  unfold digits_value in *.
  destruct (read_digits 0 (String c ds)) as [ans endp]. simpl in *. subst endp.
  simpl isBlankString. cbv iota.
  replace (1 * ans) with ans by lia.
  assert (H1 : (INT_MAX + 1 <=? ans) = false) by (apply Z.leb_gt; lia).
  assert (H2 : (ans <=? - INT_MAX - 1) = false) by (apply Z.leb_gt; unfold INT_MAX; lia).
  rewrite H1, H2. reflexivity.
Qed.

(** C1 (as amended). The chunk sends "Class_<n>", for a run of digits <n>
    whose value is at most INT_MAX, to n - 1, so "Class_1" to 0 and
    "Class_9" to 8. It does not check the form of the name: the same run
    without the prefix gives the same label, and a name that keeps no
    digit once "Class_" is removed gives NA, an element of the result and
    not an error. Every name of the column gets its element. *)
Theorem classToIntegers_labels (other : string -> r_num) :
  (forall ds, all_digits ds = true -> ds <> "" -> digits_value ds <= INT_MAX ->
     classToIntegers other ["Class_" ++ ds] = [Num (digits_value ds - 1)] /\
     classToIntegers other [ds] = [Num (digits_value ds - 1)]) /\
  (forall name, has_digit (gsub "Class_" "" name) = false ->
     classToIntegers other [name] = [NA]) /\
  (forall column, length (classToIntegers other column) = length column) /\
  classToIntegers other ["Class_1"; "Class_9"] = [Num 0; Num 8].
Proof.
  repeat split.
  - unfold classToIntegers. cbn [map].
    rewrite gsub_class_digits by assumption.
    rewrite as_integer_digits by assumption. reflexivity.
  - unfold classToIntegers, gsub. cbn [map].
    rewrite gsub_digits by assumption.
    rewrite as_integer_digits by assumption. reflexivity.
  - intros name Hno. unfold classToIntegers, as_integer. cbn [map].
    rewrite Hno. reflexivity.
  - intros column. unfold classToIntegers. apply length_map.
Qed.

Lemma classToIntegers_labels_witness :
  classToIntegers (fun _ => NA) ["Class_12"] = [Num 11] /\
  classToIntegers (fun _ => NA) ["Class_"] = [NA].
Proof.
  destruct (classToIntegers_labels (fun _ => NA)) as (Hnum & Hna & _).
  split.
  - apply (Hnum "12"); [reflexivity | discriminate | vm_compute; discriminate].
  - apply Hna. reflexivity.
Defined.

(** C1 as the specification states it fails: "7" is not of the form
    "Class_<int>", and the chunk gives the label 6 for it; "Class_x" is not
    of the form either, and the chunk gives NA. Neither is an error. *)
Lemma classToIntegers_accepts_other_forms :
  class_form "7" = false /\
  (forall other, classToIntegers other ["7"] = [Num 6]) /\
  class_form "Class_x" = false /\
  (forall other, classToIntegers other ["Class_x"] = [NA]).
Proof. repeat split. Qed.

(** ** Titanic: the frames keep their rows *)

Lemma wrap64_id z : in_int64 z -> wrap64 z = z.
Proof.
  unfold in_int64, int64_min, int64_max, wrap64. intros H.
  rewrite Z.mod_small; lia.
Qed.

Lemma wrap64_add_l a b : wrap64 (wrap64 a + b) = wrap64 (a + b).
Proof.
  unfold wrap64.
  replace ((a + 2 ^ 63) mod 2 ^ 64 - 2 ^ 63 + b + 2 ^ 63)
    with ((a + 2 ^ 63) mod 2 ^ 64 + b) by lia.
  rewrite Zplus_mod_idemp_l. f_equal. f_equal. lia.
Qed.

Lemma for_each_length {A B : Type} (f : A -> result B) xs ys :
  for_each f xs = Ok ys -> length ys = length xs.
Proof.
  revert ys. induction xs as [|x xs IH]; simpl; intros ys H.
  - injection H as <-. reflexivity.
  - destruct (f x) as [y|]; simpl in H; [| discriminate].
    destruct (for_each f xs) as [ys'|]; simpl in H; [| discriminate].
    injection H as <-. simpl. f_equal. apply IH. reflexivity.
Qed.

Lemma for_each_lookup {A B : Type} (f : A -> result B) xs ys i x :
  for_each f xs = Ok ys -> xs !! i = Some x ->
  exists y, ys !! i = Some y /\ f x = Ok y.
Proof.
  revert ys i. induction xs as [|x0 xs IH]; intros ys i H Hi.
  - destruct i; discriminate Hi.
  - simpl in H.
    destruct (f x0) as [y0|] eqn:Hf; simpl in H; [| discriminate].
    destruct (for_each f xs) as [ys'|] eqn:Hrest; simpl in H; [| discriminate].
    injection H as <-. destruct i as [|i]; simpl in *.
    + injection Hi as <-. exists y0. split; [reflexivity | exact Hf].
    + apply (IH ys' i eq_refl Hi).
Qed.

Lemma set_missing_length column draws filled :
  set_missing column draws = Ok filled -> length filled = length column.
Proof.
  revert draws filled.
  induction column as [|[age|] column IH]; intros draws filled H; simpl in H.
  - destruct draws; [| discriminate]. injection H as <-. reflexivity.
  - destruct (set_missing column draws) as [f|] eqn:Hrest; simpl in H; [| discriminate].
    injection H as <-. simpl. f_equal. eapply IH, Hrest.
  - destruct draws as [|v more]; [discriminate |].
    destruct (set_missing column more) as [f|] eqn:Hrest; simpl in H; [| discriminate].
    injection H as <-. simpl. f_equal. eapply IH, Hrest.
Qed.






(** What a returning [impute_age] has gone through. *)
Lemma impute_age_inv state dataset ages state' :
  impute_age state dataset = Ok (ages, state') ->
  exists age_avg age_var filled,
    mean (map Raw.Age dataset) = Some age_avg /\
    variance (map Raw.Age dataset) = Some age_var /\
    int_sub_sqrt age_avg age_var < int_add_sqrt age_avg age_var /\
    set_missing (map Raw.Age dataset)
      (fst (randint (int_sub_sqrt age_avg age_var) (int_add_sqrt age_avg age_var)
              (count_missing (map Raw.Age dataset)) state)) = Ok filled /\
    ages = map trunc filled.
Proof.
  unfold impute_age. intros H.
  destruct (mean (map Raw.Age dataset)) as [age_avg|]; [| discriminate].
  destruct (variance (map Raw.Age dataset)) as [age_var|]; [| discriminate].
  destruct (int_sub_sqrt age_avg age_var <? int64_min); [discriminate |].
  destruct (int64_max + 1 <? int_add_sqrt age_avg age_var); [discriminate |].
  destruct (int_add_sqrt age_avg age_var <=? int_sub_sqrt age_avg age_var) eqn:Hrange;
    [discriminate |].
  apply Z.leb_gt in Hrange.
  destruct (randint _ _ _ state) as [draws state1] eqn:Hdraws.
  destruct (set_missing (map Raw.Age dataset) draws) as [filled|] eqn:Hset;
    simpl in H; [| discriminate].
  injection H as <- <-.
  exists age_avg, age_var, filled. rewrite Hdraws. cbn [fst].
  repeat split; assumption || reflexivity.
Qed.

Lemma impute_age_length state dataset ages state' :
  impute_age state dataset = Ok (ages, state') -> length ages = length dataset.
Proof.
  intros H. apply impute_age_inv in H as (m & v & filled & _ & _ & _ & Hset & ->).
  rewrite length_map. apply set_missing_length in Hset.
  rewrite Hset. apply length_map.
Qed.

Lemma fill_fare_length train_Fare dataset :
  length (fill_fare train_Fare dataset) = length dataset.
Proof. unfold fill_fare. apply length_map. Qed.

Lemma assemble_lookup rows fares ages i r :
  length fares = length rows -> length ages = length rows ->
  rows !! i = Some r ->
  exists fare age,
    fares !! i = Some fare /\ ages !! i = Some age /\
    assemble rows fares ages !! i = Some (explored r fare age).
Proof.
  revert fares ages i.
  induction rows as [|r0 rows IH]; intros fares ages i Hf Ha Hi.
  - destruct i; discriminate Hi.
  - destruct fares as [|f fares]; [discriminate |].
    destruct ages as [|a ages]; [discriminate |].
    injection Hf as Hf. injection Ha as Ha.
    destruct i as [|i]; simpl in Hi |- *.
    + injection Hi as <-. exists f, a. repeat split.
    + apply (IH fares ages i Hf Ha Hi).
Qed.

Lemma assemble_length rows fares ages :
  length fares = length rows -> length ages = length rows ->
  length (assemble rows fares ages) = length rows.
Proof.
  revert fares ages.
  induction rows as [|r0 rows IH]; intros fares ages Hf Ha; [reflexivity |].
  destruct fares as [|f fares]; [discriminate |].
  destruct ages as [|a ages]; [discriminate |].
  injection Hf as Hf. injection Ha as Ha. simpl. f_equal. apply IH; assumption.
Qed.

Lemma explore_inv state train test train' test' state' :
  explore state train test = Ok (train', test', state') ->
  exists train_Age test_Age state1,
    impute_age state train = Ok (train_Age, state1) /\
    impute_age state1 test = Ok (test_Age, state') /\
    train' = assemble train (fill_fare (map Raw.Fare train) train) train_Age /\
    test' = assemble test (fill_fare (fill_fare (map Raw.Fare train) train) test) test_Age.
Proof.
  unfold explore. intros H.
  destruct (impute_age state train) as [[train_Age state1]|] eqn:H1;
    simpl in H; [| discriminate].
  destruct (impute_age state1 test) as [[test_Age state2]|] eqn:H2;
    simpl in H; [| discriminate].
  injection H as <- <- <-.
  exists train_Age, test_Age, state1. repeat split; assumption.
Qed.

(** Cells 4 to 10 keep every row, in its place. *)
Lemma explore_rows state train test train' test' state' raw out :
  explore state train test = Ok (train', test', state') ->
  frame_of train test train' test' raw out ->
  length out = length raw /\
  forall i r, raw !! i = Some r ->
    exists fare age, out !! i = Some (explored r fare age).
Proof.
  intros H Hframe.
  apply explore_inv in H as (train_Age & test_Age & state1 & H1 & H2 & -> & ->).
  apply impute_age_length in H1. apply impute_age_length in H2.
  destruct Hframe as [[-> ->] | [-> ->]].
  - split.
    + apply assemble_length; [apply fill_fare_length | exact H1].
    + intros i r Hi.
      destruct (assemble_lookup train (fill_fare (map Raw.Fare train) train)
                  train_Age i r (fill_fare_length _ _) H1 Hi)
        as (fare & age & _ & _ & Hout).
      exists fare, age. exact Hout.
  - split.
    + apply assemble_length; [apply fill_fare_length | exact H2].
    + intros i r Hi.
      destruct (assemble_lookup test
                  (fill_fare (fill_fare (map Raw.Fare train) train) test)
                  test_Age i r (fill_fare_length _ _) H2 Hi)
        as (fare & age & _ & _ & Hout).
      exists fare, age. exact Hout.
Qed.

Lemma FamilySize_sum r :
  in_int64 (Raw.SibSp r + Raw.Parch r + 1) ->
  FamilySize r = Raw.SibSp r + Raw.Parch r + 1.
Proof.
  intros H. unfold FamilySize. rewrite wrap64_add_l. apply wrap64_id, H.
Qed.

Lemma IsAlone_cases size :
  (IsAlone size = 1 <-> size = 1) /\ (size <> 1 -> IsAlone size = 0).
Proof.
  unfold IsAlone, loc_set. destruct (Z.eqb_spec size 1) as [-> | Hne].
  - split; [split; reflexivity | congruence].
  - split; [split; [discriminate | congruence] | reflexivity].
Qed.

(** ** Titanic: the family *)

(** C4. In every row of the training frame and of the test frame, after
    the exploratory cells, FamilySize is SibSp + Parch + 1, and IsAlone is
    1 exactly when FamilySize is 1, and 0 otherwise. The sum is the exact
    one as long as it fits int64, which the counts of a passenger do. *)
Theorem family_size_is_alone :
  (forall r : Raw.row,
     in_int64 (Raw.SibSp r + Raw.Parch r + 1) ->
     FamilySize r = Raw.SibSp r + Raw.Parch r + 1 /\
     (IsAlone (FamilySize r) = 1 <-> FamilySize r = 1) /\
     (FamilySize r <> 1 -> IsAlone (FamilySize r) = 0)) /\
  (forall state train test train' test' state' raw out,
     explore state train test = Ok (train', test', state') ->
     frame_of train test train' test' raw out ->
     forall i r, raw !! i = Some r ->
       exists r', out !! i = Some r' /\
         Eda.SibSp r' = Raw.SibSp r /\ Eda.Parch r' = Raw.Parch r /\
         Eda.FamilySize r' = FamilySize r /\
         Eda.IsAlone r' = IsAlone (FamilySize r)).
Proof.
  split.
  - intros r Hfit. split; [apply FamilySize_sum, Hfit | apply IsAlone_cases].
  - intros state train test train' test' state' raw out H Hframe i r Hi.
    destruct (explore_rows _ _ _ _ _ _ _ _ H Hframe) as [_ Hrows].
    destruct (Hrows i r Hi) as (fare & age & Hout).
    exists (explored r fare age). repeat split. exact Hout.
Qed.

Lemma family_size_is_alone_witness :
  FamilySize braund = 1 + 0 + 1 /\ IsAlone (FamilySize braund) = 0 /\
  exists r', example_train' !! 3%nat = Some r' /\
    Eda.FamilySize r' = 5 /\ Eda.IsAlone r' = 0.
Proof.
  destruct family_size_is_alone as [Hrow Hframe].
  destruct (Hrow braund) as (Hsize & _ & Halone).
  { vm_compute. split; discriminate. }
  split; [exact Hsize |].
  split; [apply Halone; rewrite Hsize; vm_compute; discriminate |].
  destruct (Hframe example_state example_train example_test
              example_train' example_test' example_state'
              example_train example_train')
    with (i := 3%nat)
         (r := passenger 8 3 "Palsson, Master. Gosta Leonard" "male" (Some 2%Q) 3 1
                 "349909" (Some 21.075%Q) None (Some "S"))
    as (r' & Hout & _ & _ & Hfam & Hal).
  - vm_compute. reflexivity.
  - left. split; reflexivity.
  - reflexivity.
  - exists r'. split; [exact Hout |]. rewrite Hal, Hfam. split; reflexivity.
Defined.

(** ** Titanic: the fare per person *)

Lemma astype_int_inv x z : astype_int x = Ok z -> exists q, x = Some q /\ z = trunc q.
Proof.
  destruct x as [q|]; simpl; intros H; [| discriminate].
  injection H as <-. exists q. split; reflexivity.
Qed.

(** What cell 17 leaves in a row. *)
Lemma V2_clean_row_inv e c :
  V2.clean_row e = Ok c ->
  V2.Pclass c = Eda.Pclass e /\
  V2.Age c = bucket_age (Eda.Age e) /\
  V2.FamilySize c = Eda.FamilySize e /\
  V2.Title c = map_title (Some (Eda.Title e)) /\
  V2.FarePerPerson c = divide (Eda.Fare e) (V2.divisor e).
Proof.
  unfold V2.clean_row. intros H.
  destruct (astype_int (series_map sex_mapping (Some (Eda.Sex e)))) as [sex|];
    simpl in H; [| discriminate].
  destruct (astype_int (series_map embarked_mapping (Eda.Embarked e))) as [embarked|];
    simpl in H; [| discriminate].
  injection H as <-. repeat split.
Qed.

Lemma counts_ok_family r :
  counts_ok r ->
  FamilySize r = Raw.SibSp r + Raw.Parch r + 1 /\
  wrap64 (FamilySize r + 1) = FamilySize r + 1.
Proof.
  intros (Hs & Hp & Hmax). unfold int64_max in Hmax.
  assert (Hsize : FamilySize r = Raw.SibSp r + Raw.Parch r + 1).
  { apply FamilySize_sum. unfold in_int64, int64_min, int64_max. lia. }
  split; [exact Hsize |].
  apply wrap64_id. unfold in_int64, int64_min, int64_max. lia.
Qed.



(** ** Titanic: the buckets *)

(** Evaluates the comparisons between two numerals and rewrites with the
    comparisons already decided, until the assignments are all resolved. *)
Ltac closed_Qle :=
  repeat match goal with
         | |- context [Qle_bool (?n # ?d) ?c] =>
             let v := eval vm_compute in (Qle_bool (n # d) c) in
             change (Qle_bool (n # d) c) with v
         end.

Ltac run_assignments :=
  repeat (progress (cbv beta iota zeta delta [loc_set le_cell gt_cell negb andb];
                    closed_Qle;
                    repeat match goal with
                           | H : Qle_bool _ _ = _ |- _ => rewrite H
                           end)).

Lemma bucket_fare_code fare :
  exists code, bucket_fare (Some fare) = Some (inject_Z code) /\ fare_code fare code.
Proof.
  unfold bucket_fare, fare_code.
  destruct (Qle_bool fare 7.91) eqn:H1;
    [| destruct (Qle_bool fare 14.454) eqn:H2;
       [| destruct (Qle_bool fare 31) eqn:H3]].
  - exists 0. split; [run_assignments; reflexivity |].
    apply Qle_bool_iff in H1. repeat split; intros; try reflexivity; lra.
  - exists 1. split; [run_assignments; reflexivity |].
    apply not_true_iff_false in H1. rewrite Qle_bool_iff in H1.
    apply Qle_bool_iff in H2. repeat split; intros; try reflexivity; lra.
  - exists 2. split; [run_assignments; reflexivity |].
    apply not_true_iff_false in H2. rewrite Qle_bool_iff in H2.
    apply Qle_bool_iff in H3. repeat split; intros; try reflexivity; lra.
  - exists 3. split; [run_assignments; reflexivity |].
    apply not_true_iff_false in H3. rewrite Qle_bool_iff in H3.
    apply not_true_iff_false in H2. rewrite Qle_bool_iff in H2.
    repeat split; intros; try reflexivity; lra.
Qed.


Lemma trunc_inject_Z z : trunc (inject_Z z) = z.
Proof.
  unfold trunc. destruct (Qle_bool 0 (inject_Z z)).
  - apply Qfloor_Z.
  - apply Qceiling_Z.
Qed.

(** What cell 12 leaves in a row. The fare must be known, or [astype(int)]
    raises. *)
Lemma V1_clean_row_inv e c :
  V1.clean_row e = Ok c ->
  V1.Pclass c = Eda.Pclass e /\
  V1.Age c = bucket_age (Eda.Age e) /\
  V1.IsAlone c = Eda.IsAlone e /\
  V1.Title c = map_title (Some (Eda.Title e)) /\
  exists fare, Eda.Fare e = Some fare /\
    bucket_fare (Some fare) = Some (inject_Z (V1.Fare c)).
Proof.
  unfold V1.clean_row. intros H.
  destruct (astype_int (series_map sex_mapping (Some (Eda.Sex e)))) as [sex|];
    simpl in H; [| discriminate].
  destruct (astype_int (series_map embarked_mapping (Eda.Embarked e))) as [embarked|];
    simpl in H; [| discriminate].
  destruct (astype_int (bucket_fare (Eda.Fare e))) as [code|] eqn:Hfare;
    simpl in H; [| discriminate].
  injection H as <-. cbn [V1.Pclass V1.Age V1.IsAlone V1.Title V1.Fare].
  repeat split.
  destruct (Eda.Fare e) as [fare|]; [| discriminate Hfare].
  exists fare. split; [reflexivity |].
  destruct (bucket_fare_code fare) as (k & Hk & _).
  rewrite Hk in Hfare |- *. simpl in Hfare. injection Hfare as <-.
  rewrite trunc_inject_Z. reflexivity.
Qed.



(** ** Titanic: the titles and the dictionaries *)

(** The cases of a successful lookup in a dictionary written out as a
    literal: one per key. *)
Ltac lookup_cases H :=
  first
    [ rewrite lookup_insert in H; case_decide; [simplify_eq | lookup_cases H]
    | rewrite lookup_singleton in H; case_decide; [simplify_eq | discriminate H] ].

Lemma title_mapping_unknown title :
  title <> "Mr" -> title <> "Miss" -> title <> "Mrs" -> title <> "Master" ->
  title <> "Rare" -> title_mapping !! title = None.
Proof.
  intros. unfold title_mapping.
  rewrite !lookup_insert_ne by congruence.
  rewrite lookup_singleton_ne by congruence. reflexivity.
Qed.

(** C3. The five canonical titles get the codes 1 to 5; any other title,
    the empty one that [get_title] returns without a match among them, and
    a missing title get the code 0, and nothing raises. This is the Title
    column that cell 12 and cell 17 leave. *)
Theorem title_codes :
  map_title (Some "Mr") = Some 1%Q /\
  map_title (Some "Miss") = Some 2%Q /\
  map_title (Some "Mrs") = Some 3%Q /\
  map_title (Some "Master") = Some 4%Q /\
  map_title (Some "Rare") = Some 5%Q /\
  (forall title,
     title <> "Mr" -> title <> "Miss" -> title <> "Mrs" -> title <> "Master" ->
     title <> "Rare" -> map_title (Some title) = Some 0%Q) /\
  map_title (Some "") = Some 0%Q /\
  map_title None = Some 0%Q /\
  (forall e c, V1.clean_row e = Ok c -> V1.Title c = map_title (Some (Eda.Title e))) /\
  (forall e c, V2.clean_row e = Ok c -> V2.Title c = map_title (Some (Eda.Title e))).
Proof.
  repeat split.
  - intros title H1 H2 H3 H4 H5. unfold map_title, series_map.
    rewrite title_mapping_unknown by assumption. reflexivity.
  - intros e c H. apply V1_clean_row_inv in H as (_ & _ & _ & H & _). exact H.
  - intros e c H. apply V2_clean_row_inv in H as (_ & _ & _ & H & _). exact H.
Qed.

Lemma title_codes_witness :
  map_title (Some "Don") = Some 0%Q /\
  exists c, V1.clean_row (explored braund (Some 7.25%Q) 22) = Ok c /\
    V1.Title c = Some 1%Q.
Proof.
  destruct title_codes as (_ & _ & _ & _ & _ & Hother & _ & _ & Hfirst & _).
  split; [apply Hother; discriminate |].
  destruct (V1.clean_row (explored braund (Some 7.25%Q) 22)) as [c|] eqn:Hc;
    [| vm_compute in Hc; discriminate].
  exists c. split; [reflexivity |]. rewrite (Hfirst _ _ Hc). reflexivity.
Defined.

Lemma existsb_eqb_In x values :
  existsb (String.eqb x) values = true <-> In x values.
Proof.
  rewrite existsb_exists. split.
  - intros (y & Hy & Heq). apply String.eqb_eq in Heq. subst y. exact Hy.
  - intros Hx. exists x. split; [exact Hx | apply String.eqb_refl].
Qed.

Lemma replace_other to_replace value x :
  ~ In x to_replace -> replace to_replace value x = x.
Proof.
  intros Hx. unfold replace.
  destruct (existsb (String.eqb x) to_replace) eqn:He; [| reflexivity].
  apply existsb_eqb_In in He. contradiction.
Qed.

(** C6. Each of the eleven rare titles becomes "Rare", "Mlle" and "Ms"
    become "Miss", "Mme" becomes "Mrs", and every other title is left as
    it is. The Title column after the exploratory cells is this grouping
    of the extracted title. *)
Theorem rare_title_grouping :
  (forall title, In title rare_titles -> group_title title = "Rare") /\
  rare_titles = ["Lady"; "Countess"; "Capt"; "Col"; "Don"; "Dr"; "Major"; "Rev";
                 "Sir"; "Jonkheer"; "Dona"] /\
  group_title "Dr" = "Rare" /\ group_title "Major" = "Rare" /\
  group_title "Mlle" = "Miss" /\ group_title "Ms" = "Miss" /\
  group_title "Mme" = "Mrs" /\
  (forall title,
     ~ In title rare_titles -> title <> "Mlle" -> title <> "Ms" -> title <> "Mme" ->
     group_title title = title) /\
  (forall r fare age,
     Eda.Title (explored r fare age) = group_title (get_title (Raw.Name r))).
Proof.
  repeat split.
  - intros title H. unfold rare_titles in H. simpl in H.
    repeat (destruct H as [<- | H]; [reflexivity |]). contradiction.
  - intros title Hrare H1 H2 H3. unfold group_title.
    rewrite (replace_other rare_titles) by exact Hrare.
    rewrite (replace_other ["Mlle"] "Miss" title) by (simpl; intuition congruence).
    rewrite (replace_other ["Ms"] "Miss" title) by (simpl; intuition congruence).
    apply replace_other. simpl. intuition congruence.
Qed.

Lemma rare_title_grouping_witness :
  group_title "Jonkheer" = "Rare" /\ group_title "Master" = "Master".
Proof.
  destruct rare_title_grouping as (Hrare & _ & _ & _ & _ & _ & _ & Hother & _).
  split.
  - apply Hrare. vm_compute. tauto.
  - apply Hother; [vm_compute; intuition discriminate | discriminate ..].
Defined.

(** C8. Each of the three dictionaries sends different categories to
    different codes, so the decoding that it determines gives back the
    category of every code that the dictionary assigns. *)
Theorem encodings_injective :
  sex_mapping !! "female" = Some 0 /\ sex_mapping !! "male" = Some 1 /\
  embarked_mapping !! "S" = Some 0 /\ embarked_mapping !! "C" = Some 1 /\
  embarked_mapping !! "Q" = Some 2 /\
  title_mapping !! "Mr" = Some 1 /\ title_mapping !! "Miss" = Some 2 /\
  title_mapping !! "Mrs" = Some 3 /\ title_mapping !! "Master" = Some 4 /\
  title_mapping !! "Rare" = Some 5 /\
  forall mapping : gmap string Z,
    In mapping [sex_mapping; embarked_mapping; title_mapping] ->
    (forall k1 k2 code,
       mapping !! k1 = Some code -> mapping !! k2 = Some code -> k1 = k2) /\
    (forall k code, mapping !! k = Some code -> decode mapping code = Some k).
Proof.
  do 10 (split; [reflexivity |]).
  intros mapping [<- | [<- | [<- | []]]]; split.
  - intros k1 k2 code H1 H2. unfold sex_mapping in H1, H2.
    lookup_cases H1; lookup_cases H2; reflexivity.
  - intros k code H. unfold sex_mapping in H. lookup_cases H; reflexivity.
  - intros k1 k2 code H1 H2. unfold embarked_mapping in H1, H2.
    lookup_cases H1; lookup_cases H2; reflexivity.
  - intros k code H. unfold embarked_mapping in H. lookup_cases H; reflexivity.
  - intros k1 k2 code H1 H2. unfold title_mapping in H1, H2.
    lookup_cases H1; lookup_cases H2; reflexivity.
  - intros k code H. unfold title_mapping in H. lookup_cases H; reflexivity.
Qed.

Lemma encodings_injective_witness :
  sex_mapping !! "male" = Some 1 /\ decode sex_mapping 1 = Some "male".
Proof.
  split; [reflexivity |].
  destruct encodings_injective as (_ & _ & _ & _ & _ & _ & _ & _ & _ & _ & H).
  apply (H sex_mapping); [left; reflexivity | reflexivity].
Defined.

(** ** Titanic: the extraction of the title *)

Lemma append_cons c s t : String c s ++ t = String c (s ++ t).
Proof. reflexivity. Qed.

Lemma append_nil_l t : "" ++ t = t.
Proof. reflexivity. Qed.

Lemma append_assoc (s t u : string) : (s ++ t) ++ u = s ++ (t ++ u).
Proof.
  induction s as [|c s IH]; [reflexivity |].
  rewrite !append_cons, IH. reflexivity.
Qed.

(** The longest run of letters at the head of a text. *)
Lemma letters_run_spec s :
  s = fst (letters_run s) ++ snd (letters_run s) /\
  all_letters (fst (letters_run s)) = true.
Proof.
  induction s as [|c s [IH1 IH2]]; [split; reflexivity |].
  cbn [letters_run]. destruct (is_letter c) eqn:Hc.
  - destruct (letters_run s) as [run after]. cbn [fst snd] in *.
    split; [rewrite append_cons; f_equal; exact IH1 |].
    cbn [all_letters]. rewrite Hc, IH2. reflexivity.
  - split; reflexivity.
Qed.

Lemma letters_run_until title c after :
  all_letters title = true -> is_letter c = false ->
  letters_run (title ++ String c after) = (title, String c after).
Proof.
  intros Ht Hc. induction title as [|d title IH].
  - rewrite append_nil_l. cbn [letters_run]. rewrite Hc. reflexivity.
  - cbn [all_letters] in Ht. apply andb_true_iff in Ht as [Hd Ht].
    rewrite append_cons. cbn [letters_run]. rewrite Hd, (IH Ht). reflexivity.
Qed.

Lemma match_here_sound s title :
  match_here s = Some title -> exists after, title_at s "" title after.
Proof.
  unfold match_here, title_at. intros H.
  destruct s as [|c rest]; [discriminate |].
  destruct (ascii_dec c " ") as [-> | Hc].
  - destruct (letters_run_spec rest) as [Hsplit Hletters].
    destruct (letters_run rest) as [run after]. cbn [fst snd] in *.
    destruct run as [|d run]; [discriminate |].
    destruct after as [|p after]; [discriminate |].
    destruct (ascii_dec p ".") as [-> | Hp].
    + injection H as <-. exists after. split; [| split].
      * rewrite append_nil_l, append_cons, append_nil_l. f_equal.
        rewrite Hsplit. rewrite append_cons. reflexivity.
      * discriminate.
      * exact Hletters.
    + destruct p as [[] [] [] [] [] [] [] []]; try discriminate. congruence.
  - destruct c as [[] [] [] [] [] [] [] []]; try discriminate. congruence.
Qed.

Lemma match_here_complete title after :
  title <> "" -> all_letters title = true ->
  match_here (" " ++ title ++ "." ++ after) = Some title.
Proof.
  intros Hne Ht. rewrite append_cons, append_nil_l. unfold match_here.
  rewrite append_cons, append_nil_l.
  rewrite (letters_run_until title "." after Ht eq_refl).
  destruct title; [congruence | reflexivity].
Qed.

Lemma title_search_sound name title :
  title_search name = Some title ->
  exists before after, title_at name before title after.
Proof.
  induction name as [|c name IH]; intros H.
  - discriminate.
  - cbn [title_search] in H.
    destruct (match_here (String c name)) as [t|] eqn:Hm.
    + injection H as ->. apply match_here_sound in Hm as [after Hat].
      exists "", after. exact Hat.
    + destruct (IH H) as (before & after & Heq & Hne & Hl).
      exists (String c before), after. split; [| split]; try assumption.
      rewrite append_cons. f_equal. exact Heq.
Qed.

Lemma title_search_complete name :
  title_pattern name -> exists title, title_search name = Some title.
Proof.
  intros (before & title & after & -> & Hne & Hl).
  induction before as [|c before IH].
  - rewrite append_nil_l.
    pose proof (match_here_complete title after Hne Hl) as Hm.
    rewrite append_cons, append_nil_l in Hm |- *.
    exists title. cbn [title_search]. rewrite Hm. reflexivity.
  - rewrite append_cons. cbn [title_search].
    destruct (match_here _) as [t|]; [exists t; reflexivity | exact IH].
Qed.

(** The match that [re.search] reports is the leftmost one, and at its
    place the run of letters is the only one that fits. *)
Lemma title_search_leftmost name title :
  title_search name = Some title ->
  exists before after,
    title_at name before title after /\
    forall before' title' after',
      title_at name before' title' after' ->
      (String.length before <= String.length before')%nat /\
      (before' = before -> title' = title).
Proof.
  revert title. induction name as [|c name IH]; intros title H.
  - discriminate.
  - cbn [title_search] in H.
    destruct (match_here (String c name)) as [t|] eqn:Hm.
    + injection H as ->. pose proof Hm as Hm'.
      apply match_here_sound in Hm' as [after Hat].
      exists "", after. split; [exact Hat |].
      intros before' title' after' (Heq & Hne & Hl). split; [cbn; lia |].
      intros ->. rewrite Heq, append_nil_l in Hm.
      rewrite (match_here_complete title' after' Hne Hl) in Hm. congruence.
    + destruct (IH title H) as (before & after & (Heq & Hne & Hl) & Hleft).
      exists (String c before), after. split.
      * split; [| split]; try assumption. rewrite append_cons. f_equal. exact Heq.
      * intros before' title' after' (Heq' & Hne' & Hl').
        destruct before' as [|c' before'].
        { rewrite Heq', append_nil_l in Hm.
          rewrite (match_here_complete title' after' Hne' Hl') in Hm. discriminate. }
        rewrite append_cons in Heq'. injection Heq' as <- Heq'.
        destruct (Hleft before' title' after') as [Hlen Hsame].
        { split; [exact Heq' | split; assumption]. }
        split; [cbn; lia |]. intros Hb. injection Hb as ->. apply Hsame. reflexivity.
Qed.

(** C7. On "Braund, Mr. Owen Harris" the function returns "Mr". On a name
    without the pattern "space, letters, period" it returns the empty
    string, and nothing raises. On a name with the pattern it returns the
    run of letters that stands between the space and the period of the
    leftmost occurrence. *)
Theorem get_title_extracts :
  get_title "Braund, Mr. Owen Harris" = "Mr" /\
  (forall name, ~ title_pattern name -> get_title name = "") /\
  (forall name, title_pattern name ->
     exists before after,
       title_at name before (get_title name) after /\
       forall before' title' after',
         title_at name before' title' after' ->
         (String.length before <= String.length before')%nat /\
         (before' = before -> title' = get_title name)).
Proof.
  split; [reflexivity |]. split.
  - intros name Hno. unfold get_title.
    destruct (title_search name) as [title|] eqn:Hs; [| reflexivity].
    exfalso. apply Hno.
    destruct (title_search_sound name title Hs) as (before & after & Hat).
    exists before, title, after. exact Hat.
  - intros name Hyes. unfold get_title.
    destruct (title_search_complete name Hyes) as [title Hs]. rewrite Hs.
    apply title_search_leftmost, Hs.
Qed.

Lemma get_title_extracts_witness :
  get_title "Moran" = "" /\
  exists before after,
    title_at "Rothes, the Countess. of" before (get_title "Rothes, the Countess. of") after /\
    forall before' title' after',
      title_at "Rothes, the Countess. of" before' title' after' ->
      (String.length before <= String.length before')%nat /\
      (before' = before -> title' = get_title "Rothes, the Countess. of").
Proof.
  destruct get_title_extracts as (_ & Hno & Hyes). split.
  - apply Hno. intros (before & title & after & Heq & _).
    assert (Hspace : forall s t : string, "Moran" = s ++ " " ++ t -> False).
    { intros s t H.
      do 5 (destruct s as [|? s]; [discriminate H | injection H as _ H]).
      destruct s; discriminate H. }
    apply (Hspace _ _ Heq).
  - apply Hyes. exists "Rothes, the", "Countess", " of".
    split; [reflexivity |]. split; [discriminate | reflexivity].
Defined.

(** ** Titanic: the imputation of the age *)




Lemma Qle_bool_false x y : Qle_bool x y = false <-> (y < x)%Q.
Proof.
  rewrite <- not_true_iff_false, Qle_bool_iff. split.
  - apply Qnot_le_lt.
  - apply Qlt_not_le.
Qed.


Lemma le_add_sqrt_iff k m v :
  le_add_sqrt k m v = true <->
  (inject_Z k - m <= 0 \/ (inject_Z k - m) * (inject_Z k - m) <= v)%Q.
Proof.
  unfold le_add_sqrt, Qsquare. rewrite orb_true_iff, !Qle_bool_iff. reflexivity.
Qed.


Lemma sub_sqrt_le_iff k m v :
  sub_sqrt_le k m v = true <->
  (m - inject_Z k <= 0 \/ (m - inject_Z k) * (m - inject_Z k) <= v)%Q.
Proof.
  unfold sub_sqrt_le, Qsquare. rewrite orb_true_iff, !Qle_bool_iff. reflexivity.
Qed.


Lemma le_add_sqrt_mono k k' m v :
  k <= k' -> le_add_sqrt k' m v = true -> le_add_sqrt k m v = true.
Proof.
  rewrite !le_add_sqrt_iff, Zle_Qle. intros Hk [H | H].
  - left. lra.
  - destruct (Qlt_le_dec 0 (inject_Z k - m)) as [Hpos | Hneg].
    + right. nra.
    + left. exact Hneg.
Qed.









Lemma lookup_map {A B : Type} (f : A -> B) (l : list A) i x :
  l !! i = Some x -> map f l !! i = Some (f x).
Proof.
  revert i. induction l as [|y l IH]; intros [|i] H; try discriminate H.
  - injection H as <-. reflexivity.
  - apply (IH i H).
Qed.





(** ** Titanic: rows and missing values up to the hand-over *)

Lemma for_each_lookup_back {A B : Type} (f : A -> result B) xs ys i y :
  for_each f xs = Ok ys -> ys !! i = Some y ->
  exists x, xs !! i = Some x /\ f x = Ok y.
Proof.
  revert ys i. induction xs as [|x0 xs IH]; intros ys i H Hi.
  - injection H as <-. destruct i; discriminate Hi.
  - simpl in H.
    destruct (f x0) as [y0|] eqn:Hf; simpl in H; [| discriminate].
    destruct (for_each f xs) as [ys'|] eqn:Hrest; simpl in H; [| discriminate].
    injection H as <-. destruct i as [|i]; simpl in *.
    + injection Hi as <-. exists x0. split; [reflexivity | exact Hf].
    + apply (IH ys' i eq_refl Hi).
Qed.

Lemma explore_rows_back state train test train' test' state' raw out i e :
  explore state train test = Ok (train', test', state') ->
  frame_of train test train' test' raw out ->
  out !! i = Some e ->
  exists r fare age, raw !! i = Some r /\ e = explored r fare age.
Proof.
  intros H Hframe Hi.
  destruct (explore_rows _ _ _ _ _ _ _ _ H Hframe) as [Hlen Hrows].
  assert (Hlt : (i < length raw)%nat).
  { rewrite <- Hlen. apply lookup_lt_is_Some. eexists. exact Hi. }
  apply lookup_lt_is_Some in Hlt as [r Hr].
  destruct (Hrows i r Hr) as (fare & age & Hout).
  exists r, fare, age. split; [exact Hr | congruence].
Qed.

Lemma In_lookup {A : Type} (l : list A) x : In x l -> exists i, l !! i = Some x.
Proof.
  induction l as [|y l IH]; intros H; [contradiction |].
  destruct H as [-> | H].
  - exists 0%nat. reflexivity.
  - destruct (IH H) as [i Hi]. exists (S i). exact Hi.
Qed.

Lemma lookup_In {A : Type} (l : list A) i x : l !! i = Some x -> In x l.
Proof.
  revert i. induction l as [|y l IH]; intros [|i] H; try discriminate H.
  - injection H as <-. left. reflexivity.
  - right. apply (IH i H).
Qed.

Lemma map_title_known title : exists code, map_title title = Some code.
Proof.
  unfold map_title, fillna.
  destruct (series_map title_mapping title) as [code|]; eexists; reflexivity.
Qed.

(** Cells 13 and 18 drop columns: what is left of a row, in order. *)
Lemma V1_select_rows cleaned :
  V1.select cleaned =
  map (fun c => [Int (V1.Pclass c); Int (V1.Sex c); Int (V1.Age c); Int (V1.Fare c);
                 Int (V1.Embarked c); Int (V1.IsAlone c);
                 Float (of_cell (V1.Title c))]) cleaned.
Proof. reflexivity. Qed.

Lemma V2_select_rows cleaned :
  V2.select cleaned =
  map (fun c => [Int (V2.Pclass c); Int (V2.Sex c); Int (V2.Age c);
                 Int (V2.Embarked c); Int (V2.FamilySize c);
                 Float (of_cell (V2.Title c)); Float (V2.FarePerPerson c)]) cleaned.
Proof. reflexivity. Qed.

Lemma V1_select_complete dataset cleaned :
  V1.clean dataset = Ok cleaned -> complete (V1.select cleaned).
Proof.
  intros Hclean. rewrite V1_select_rows. unfold complete.
  apply List.Forall_forall. intros row Hrow.
  apply in_map_iff in Hrow as (c & <- & Hc).
  apply In_lookup in Hc as [i Hi].
  destruct (for_each_lookup_back _ _ _ _ _ Hclean Hi) as (e & _ & He).
  apply V1_clean_row_inv in He as (_ & _ & _ & Htitle & _).
  destruct (map_title_known (Some (Eda.Title e))) as [code Hcode].
  rewrite Htitle, Hcode. repeat constructor.
Qed.

(** In the second selection a row is complete when its fare is known and
    its divisor is not zero. *)
Lemma V2_row_complete e c :
  V2.clean_row e = Ok c ->
  (exists fare, Eda.Fare e = Some fare) -> V2.divisor e <> 0 ->
  Forall (fun v => missing v = false)
    [Int (V2.Pclass c); Int (V2.Sex c); Int (V2.Age c); Int (V2.Embarked c);
     Int (V2.FamilySize c); Float (of_cell (V2.Title c)); Float (V2.FarePerPerson c)].
Proof.
  intros Hrow [fare Hfare] Hdiv.
  apply V2_clean_row_inv in Hrow as (_ & _ & _ & Htitle & Hper).
  destruct (map_title_known (Some (Eda.Title e))) as [code Hcode].
  rewrite Htitle, Hcode, Hper, Hfare. unfold divide.
  destruct (Z.eqb_spec (V2.divisor e) 0) as [H0 | _]; [contradiction |].
  repeat constructor.
Qed.

Lemma V2_select_complete state train test train' test' state' raw out first later :
  explore state train test = Ok (train', test', state') ->
  frame_of train test train' test' raw out ->
  V1.clean out = Ok first -> V2.clean out = Ok later ->
  Forall counts_ok raw ->
  complete (V2.select later).
Proof.
  intros H Hframe Hfirst Hlater Hcounts.
  rewrite V2_select_rows. unfold complete.
  apply List.Forall_forall. intros row Hrow.
  apply in_map_iff in Hrow as (c & <- & Hc).
  apply In_lookup in Hc as [i Hi].
  destruct (for_each_lookup_back _ _ _ _ _ Hlater Hi) as (e & He & Hrow).
  destruct (for_each_lookup _ _ _ _ _ Hfirst He) as (c1 & _ & Hrow1).
  apply V1_clean_row_inv in Hrow1 as (_ & _ & _ & _ & fare & Hfare & _).
  destruct (explore_rows_back _ _ _ _ _ _ _ _ _ _ H Hframe He)
    as (r & fare' & age & Hr & ->).
  rewrite List.Forall_forall in Hcounts.
  pose proof (Hcounts r (lookup_In _ _ _ Hr)) as Hok.
  destruct (counts_ok_family r Hok) as [Hsize Hwrap].
  apply (V2_row_complete _ _ Hrow).
  - exists fare. exact Hfare.
  - unfold V2.divisor. cbn [Eda.FamilySize explored]. rewrite Hwrap, Hsize.
    destruct Hok as (Hs & Hp & _). lia.
Qed.

Lemma notebook_inv state train test first second :
  notebook state train test = Ok (first, second) ->
  exists train' test' state' train1 test1,
    explore state train test = Ok (train', test', state') /\
    V1.clean train' = Ok train1 /\ V1.clean test' = Ok test1 /\
    first = {| train_matrix := V1.select train1; test_matrix := V1.select test1 |} /\
    second = second_selection train' test'.
Proof.
  unfold notebook. intros H.
  destruct (explore state train test) as [[[train' test'] state']|] eqn:He;
    simpl in H; [| discriminate].
  unfold first_selection in H.
  destruct (V1.clean train') as [train1|] eqn:H1; simpl in H; [| discriminate].
  destruct (V1.clean test') as [test1|] eqn:H2; simpl in H; [| discriminate].
  injection H as <- <-.
  exists train', test', state', train1, test1. repeat split; assumption.
Qed.

(** C9. Take a run of the notebook that reaches the first hand-over. The
    exploratory cells keep the rows of both frames, and so do cell 12 and
    the column drop of cell 13: the two matrices handed over have the rows
    of the two files, seven columns each, and no missing value. If the
    run reaches the second hand-over as well, its matrices have the rows
    of the files too, seven columns each, and, the counts of the
    passengers being counts, no missing value. *)
Theorem cleaning_keeps_rows_and_fills state train test first second :
  notebook state train test = Ok (first, second) ->
  (exists train' test' state',
     explore state train test = Ok (train', test', state') /\
     length train' = length train /\ length test' = length test) /\
  length (train_matrix first) = length train /\
  length (test_matrix first) = length test /\
  Forall (fun row => length row = 7%nat) (train_matrix first ++ test_matrix first) /\
  complete (train_matrix first) /\ complete (test_matrix first) /\
  forall later, second = Ok later ->
    length (train_matrix later) = length train /\
    length (test_matrix later) = length test /\
    Forall (fun row => length row = 7%nat) (train_matrix later ++ test_matrix later) /\
    (Forall counts_ok train -> complete (train_matrix later)) /\
    (Forall counts_ok test -> complete (test_matrix later)).
Proof.
  intros H.
  apply notebook_inv in H
    as (train' & test' & state' & train1 & test1 & He & H1 & H2 & -> & ->).
  destruct (explore_rows _ _ _ _ _ _ train train' He) as [Hlen1 _];
    [left; split; reflexivity |].
  destruct (explore_rows _ _ _ _ _ _ test test' He) as [Hlen2 _];
    [right; split; reflexivity |].
  cbn [train_matrix test_matrix].
  split; [exists train', test', state'; repeat split; assumption |].
  split; [unfold V1.select; rewrite length_map, (for_each_length _ _ _ H1); exact Hlen1 |].
  split; [unfold V1.select; rewrite length_map, (for_each_length _ _ _ H2); exact Hlen2 |].
  split.
  { rewrite !V1_select_rows. apply List.Forall_forall. intros row Hrow.
    apply in_app_iff in Hrow as [Hrow | Hrow];
      apply in_map_iff in Hrow as (c & <- & _); reflexivity. }
  split; [apply (V1_select_complete _ _ H1) |].
  split; [apply (V1_select_complete _ _ H2) |].
  intros later Hlater. unfold second_selection in Hlater.
  destruct (V2.clean train') as [train2|] eqn:H3; simpl in Hlater; [| discriminate].
  destruct (V2.clean test') as [test2|] eqn:H4; simpl in Hlater; [| discriminate].
  injection Hlater as <-. cbn [train_matrix test_matrix].
  split; [unfold V2.select; rewrite length_map, (for_each_length _ _ _ H3); exact Hlen1 |].
  split; [unfold V2.select; rewrite length_map, (for_each_length _ _ _ H4); exact Hlen2 |].
  split.
  { rewrite !V2_select_rows. apply List.Forall_forall. intros row Hrow.
    apply in_app_iff in Hrow as [Hrow | Hrow];
      apply in_map_iff in Hrow as (c & <- & _); reflexivity. }
  split; intros Hcounts.
  - apply (V2_select_complete _ _ _ _ _ _ train train' train1 train2 He);
      [left; split; reflexivity | assumption ..].
  - apply (V2_select_complete _ _ _ _ _ _ test test' test1 test2 He);
      [right; split; reflexivity | assumption ..].
Qed.

Lemma cleaning_keeps_rows_and_fills_witness :
  length (train_matrix (fst example_run)) = 5%nat /\
  length (test_matrix (fst example_run)) = 4%nat /\
  complete (train_matrix (fst example_run)) /\
  complete (test_matrix (fst example_run)) /\
  exists later,
    snd example_run = Ok later /\
    length (test_matrix later) = 4%nat /\ complete (test_matrix later).
Proof.
  destruct (cleaning_keeps_rows_and_fills example_state example_train example_test
              (fst example_run) (snd example_run))
    as (_ & Hn1 & Hn2 & _ & Hc1 & Hc2 & Hlater).
  { vm_compute. reflexivity. }
  split; [exact Hn1 |]. split; [exact Hn2 |].
  split; [exact Hc1 |]. split; [exact Hc2 |].
  exists (unwrap nothing_handed (snd example_run)).
  destruct (Hlater (unwrap nothing_handed (snd example_run)))
    as (_ & Hn4 & _ & _ & Hc4).
  { vm_compute. reflexivity. }
  split; [vm_compute; reflexivity |]. split; [exact Hn4 |].
  apply Hc4.
  repeat (constructor; [vm_compute; repeat split; discriminate |]). constructor.
Defined.

(** * Further properties *)

(** ** Otto: the number of classes *)

Lemma fold_max_NA y : fold_left max_step y (Some NA) = Some NA.
Proof.
  induction y as [|[|z] y IH]; [reflexivity | exact IH | exact IH].
Qed.

Lemma fold_max_In_NA y s : In NA y -> fold_left max_step y s = Some NA.
Proof.
  revert s. induction y as [|x y IH]; intros s H; [contradiction |].
  destruct H as [-> | H].
  - cbn [fold_left max_step]. apply fold_max_NA.
  - cbn [fold_left]. apply IH, H.
Qed.

(** The running maximum over numbers: an upper bound that is attained. *)
Lemma fold_max_numbers zs m :
  exists top,
    fold_left max_step (map Num zs) (Some (Num m)) = Some (Num top) /\
    m <= top /\ (forall z, In z zs -> z <= top) /\ (top = m \/ In top zs).
Proof.
  revert m. induction zs as [|z zs IH]; intros m.
  - exists m. repeat split; [lia | contradiction | left; reflexivity].
  - cbn [map fold_left max_step].
    destruct (Z.ltb_spec m z) as [Hlt | Hge].
    + destruct (IH z) as (top & Hfold & Hle & Hall & Hin).
      exists top. split; [exact Hfold |]. split; [lia |]. split.
      * intros x [<- | Hx]; [exact Hle | apply Hall, Hx].
      * right. destruct Hin as [-> | Hin]; [left; reflexivity | right; exact Hin].
    + destruct (IH m) as (top & Hfold & Hle & Hall & Hin).
      exists top. split; [exact Hfold |]. split; [exact Hle |]. split.
      * intros x [<- | Hx]; [lia | apply Hall, Hx].
      * destruct Hin as [-> | Hin]; [left; reflexivity | right; right; exact Hin].
Qed.

Lemma classToIntegers_class_digits other ds :
  all_digits ds = true -> ds <> "" -> digits_value ds <= INT_MAX ->
  minus_one (as_integer other (gsub "Class_" "" ("Class_" ++ ds))) =
  Num (digits_value ds - 1).
Proof.
  intros Hd Hne Hmax. rewrite gsub_class_digits by exact Hd.
  rewrite as_integer_digits by assumption. reflexivity.
Qed.

Lemma classToIntegers_classes other dss :
  Forall (fun ds => all_digits ds = true /\ ds <> "" /\ digits_value ds <= INT_MAX) dss ->
  classToIntegers other (map (String.append "Class_") dss) =
  map Num (map (fun ds => digits_value ds - 1) dss).
Proof.
  induction 1 as [|ds dss (Hd & Hne & Hmax) _ IH]; [reflexivity |].
  unfold classToIntegers in *. cbn [map]. rewrite IH. f_equal.
  apply classToIntegers_class_digits; assumption.
Qed.

(** X1. For a label column of names "Class_<n>", numberOfClasses is the
    largest class number, and every label is a number from 0 up to, and
    not including, numberOfClasses. *)
Theorem numberOfClasses_bounds_labels (other : string -> r_num) (dss : list string) :
  dss <> [] ->
  Forall (fun ds => all_digits ds = true /\ ds <> "" /\
                    1 <= digits_value ds <= INT_MAX) dss ->
  exists n,
    numberOfClasses (classToIntegers other (map (String.append "Class_") dss)) = Real n /\
    (exists ds, In ds dss /\ n = digits_value ds) /\
    forall label,
      In label (classToIntegers other (map (String.append "Class_") dss)) ->
      exists z, label = Num z /\ 0 <= z < n.
Proof.
  intros Hne Hall.
  rewrite classToIntegers_classes.
  2: { rewrite List.Forall_forall in Hall |- *. intros ds Hds.
       destruct (Hall ds Hds) as (? & ? & ? & ?). auto. }
  destruct dss as [|ds0 dss]; [congruence |].
  cbn [map]. unfold numberOfClasses, r_max. cbn [fold_left max_step].
  destruct (fold_max_numbers (map (fun ds => digits_value ds - 1) dss)
              (digits_value ds0 - 1)) as (top & Hfold & Hle & Hbound & Hin).
  rewrite Hfold. exists (top + 1). split; [reflexivity |]. split.
  - destruct Hin as [-> | Hin].
    + exists ds0. split; [left; reflexivity | lia].
    + apply in_map_iff in Hin as (ds & Heq & Hds).
      exists ds. split; [right; exact Hds | lia].
  - rewrite List.Forall_forall in Hall.
    intros label [<- | Hlabel].
    + exists (digits_value ds0 - 1). split; [reflexivity |].
      destruct (Hall ds0 (or_introl eq_refl)) as (_ & _ & H1 & _). lia.
    + apply in_map_iff in Hlabel as (z & <- & Hz).
      exists z. split; [reflexivity |].
      pose proof (Hbound z Hz) as Hzt.
      apply in_map_iff in Hz as (ds & <- & Hds).
      destruct (Hall ds (or_intror Hds)) as (_ & _ & H1 & _). lia.
Qed.

Lemma numberOfClasses_bounds_labels_witness :
  exists n,
    numberOfClasses (classToIntegers (fun _ => NA) ["Class_2"; "Class_9"; "Class_1"])
    = Real n /\ n = 9.
Proof.
  destruct (numberOfClasses_bounds_labels (fun _ => NA) ["2"; "9"; "1"])
    as (n & Hn & _ & _).
  - discriminate.
  - repeat constructor; discriminate.
  - exists n. split; [exact Hn |].
    vm_compute in Hn. injection Hn as <-. reflexivity.
Defined.

(** X2. One name that does not read as a number makes numberOfClasses NA,
    wherever it stands in the column, and an empty column gives minus
    infinity: neither is an error. *)
Theorem numberOfClasses_not_a_count (other : string -> r_num) (column : list string) :
  (forall name,
     In name column -> has_digit (gsub "Class_" "" name) = false ->
     numberOfClasses (classToIntegers other column) = NA_real) /\
  numberOfClasses (classToIntegers other []) = NegInf.
Proof.
  split; [| reflexivity].
  intros name Hin Hno.
  assert (HNA : In NA (classToIntegers other column)).
  { unfold classToIntegers. apply in_map_iff. exists name. split; [| exact Hin].
    unfold as_integer. rewrite Hno. reflexivity. }
  unfold numberOfClasses, r_max. rewrite (fold_max_In_NA _ None HNA). reflexivity.
Qed.

Lemma numberOfClasses_not_a_count_witness :
  numberOfClasses (classToIntegers (fun _ => NA) ["Class_3"; "Class_"; "Class_7"])
  = NA_real.
Proof.
  destruct (numberOfClasses_not_a_count (fun _ => NA) ["Class_3"; "Class_"; "Class_7"])
    as [H _].
  apply (H "Class_"); [right; left; reflexivity | reflexivity].
Defined.

(** ** Otto: labels at the edges *)

Lemma as_integer_run other ds :
  all_digits ds = true -> ds <> "" ->
  as_integer other ds =
  if INT_MAX + 1 <=? digits_value ds then NA else Num (digits_value ds).
Proof.
  intros Hd Hne. destruct ds as [|c ds]; [congruence |].
  pose proof Hd as Hd'. cbn [all_digits] in Hd'.
  apply andb_true_iff in Hd' as [Hc Hds].
  unfold as_integer. cbn [has_digit]. rewrite Hc. cbn [orb negb].
  unfold strtod_integer. cbn [skip_space]. rewrite (digit_not_space c Hc).
  assert (Hsign : match String c ds with
                  | String "-"%char rest => (-1, rest)
                  | String "+"%char rest => (1, rest)
                  | _ => (1, String c ds)
                  end = (1, String c ds)).
  { destruct (ascii_dec c "-") as [-> | Hm]; [discriminate Hc |].
    destruct (ascii_dec c "+") as [-> | Hp]; [discriminate Hc |].
    destruct c as [[] [] [] [] [] [] [] []]; try reflexivity; congruence. }
  rewrite Hsign, Hc.
  destruct (read_digits_all (String c ds) Hd 0 ltac:(lia)) as [Hend Hpos].
  unfold digits_value.
  destruct (read_digits 0 (String c ds)) as [ans endp]. cbn [fst snd] in *.
  subst endp. cbn [isBlankString]. replace (1 * ans) with ans by lia.
  assert (H2 : (ans <=? - INT_MAX - 1) = false)
    by (apply Z.leb_gt; unfold INT_MAX; lia).
  rewrite H2, orb_false_r. reflexivity.
Qed.

(** X3. A class number beyond the largest R integer does not wrap around
    and does not raise: its label is NA. *)
Theorem classToIntegers_overflow (other : string -> r_num) (ds : string) :
  all_digits ds = true -> INT_MAX < digits_value ds ->
  classToIntegers other ["Class_" ++ ds] = [NA].
Proof.
  intros Hd Hbig. unfold classToIntegers. cbn [map].
  rewrite gsub_class_digits by exact Hd.
  rewrite as_integer_run; [| exact Hd | intros ->; vm_compute in Hbig; discriminate].
  destruct (Z.leb_spec (INT_MAX + 1) (digits_value ds)); [reflexivity | lia].
Qed.

Lemma classToIntegers_overflow_witness :
  classToIntegers (fun _ => NA) ["Class_2147483648"] = [NA] /\
  classToIntegers (fun _ => NA) ["Class_2147483647"] = [Num 2147483646].
Proof.
  split; [| reflexivity].
  apply (classToIntegers_overflow (fun _ => NA) "2147483648");
    [reflexivity | vm_compute; reflexivity].
Defined.

Lemma gsub_inside a b :
  all_digits a = true -> all_digits b = true ->
  gsub_from "Class_" "" 0 (a ++ "Class_" ++ b) = a ++ b.
Proof.
  intros Ha Hb. induction a as [|c a IH].
  - rewrite !append_nil_l. apply (gsub_class_digits b Hb).
  - cbn [all_digits] in Ha. apply andb_true_iff in Ha as [Hc Ha].
    rewrite (append_cons c a ("Class_" ++ b)), (append_cons c a b).
    rewrite gsub_from_cons, prefix_cons.
    destruct (ascii_dec "C" c) as [<- | _]; [discriminate Hc |].
    rewrite (IH Ha). reflexivity.
Qed.

(** X4. The pattern is not anchored: "Class_" is removed in the middle or
    at the end of a name as well, so digits around it are read as one
    number. *)
Theorem classToIntegers_unanchored (other : string -> r_num) (a b : string) :
  all_digits a = true -> all_digits b = true ->
  gsub "Class_" "" (a ++ "Class_" ++ b) = a ++ b /\
  classToIntegers other [a ++ "Class_" ++ b] = classToIntegers other [a ++ b].
Proof.
  intros Ha Hb.
  assert (Hfree : all_digits (a ++ b) = true).
  { induction a as [|c a IH]; [exact Hb |].
    cbn [all_digits] in Ha. apply andb_true_iff in Ha as [Hc Ha].
    rewrite append_cons. cbn [all_digits]. rewrite Hc. apply (IH Ha). }
  split; [apply gsub_inside; assumption |].
  unfold classToIntegers, gsub. cbn [map].
  rewrite gsub_inside by assumption.
  rewrite (gsub_digits (a ++ b) Hfree). reflexivity.
Qed.

Lemma classToIntegers_unanchored_witness :
  classToIntegers (fun _ => NA) ["1Class_2"] = [Num 11] /\
  classToIntegers (fun _ => NA) ["7Class_"] = [Num 6].
Proof.
  split.
  - exact (proj2 (classToIntegers_unanchored (fun _ => NA) "1" "2" eq_refl eq_refl)).
  - exact (proj2 (classToIntegers_unanchored (fun _ => NA) "7" "" eq_refl eq_refl)).
Defined.

(** ** Titanic: the median and the fares *)

Lemma insert_sorted_count (P : Q -> bool) x s :
  length (List.filter P (insert_sorted x s)) = length (List.filter P (x :: s)).
Proof.
  induction s as [|y s IH]; [reflexivity |].
  cbn [insert_sorted]. destruct (Qle_bool x y); [reflexivity |].
  cbn [List.filter] in *. destruct (P y), (P x); cbn [length] in *; lia.
Qed.

Lemma sort_count (P : Q -> bool) l :
  length (List.filter P (sort l)) = length (List.filter P l).
Proof.
  unfold sort. induction l as [|x l IH]; [reflexivity |].
  cbn [fold_right]. rewrite insert_sorted_count. cbn [List.filter].
  destruct (P x); cbn [length]; lia.
Qed.

Lemma insert_sorted_length x s : length (insert_sorted x s) = S (length s).
Proof.
  induction s as [|y s IH]; [reflexivity |].
  cbn [insert_sorted]. destruct (Qle_bool x y); cbn [length]; lia.
Qed.

Lemma sort_length l : length (sort l) = length l.
Proof.
  unfold sort. induction l as [|x l IH]; [reflexivity |].
  cbn [fold_right]. rewrite insert_sorted_length, IH. reflexivity.
Qed.

Lemma insert_sorted_Forall (P : Q -> Prop) x s :
  P x -> Forall P s -> Forall P (insert_sorted x s).
Proof.
  intros Hx Hs. induction Hs as [|y s Hy Hs IH]; cbn [insert_sorted].
  - repeat constructor. exact Hx.
  - destruct (Qle_bool x y); repeat constructor; assumption.
Qed.

Lemma insert_sorted_sorted x s : sorted s -> sorted (insert_sorted x s).
Proof.
  induction s as [|y s IH]; intros Hs; cbn [insert_sorted].
  - split; [constructor | exact I].
  - destruct Hs as [Hy Hs]. destruct (Qle_bool x y) eqn:Hxy.
    + apply Qle_bool_iff in Hxy. split; [| split; assumption].
      constructor; [exact Hxy |].
      eapply List.Forall_impl; [| exact Hy]. intros z Hz. lra.
    + apply Qle_bool_false in Hxy. split; [| apply IH, Hs].
      apply insert_sorted_Forall; [lra | exact Hy].
Qed.

Lemma sort_sorted l : sorted (sort l).
Proof.
  unfold sort. induction l as [|x l IH]; [exact I |].
  cbn [fold_right]. apply insert_sorted_sorted, IH.
Qed.

Lemma count_lt_cons v x l :
  count_lt v (x :: l) = ((if Qle_bool v x then 0 else 1) + count_lt v l)%nat.
Proof. unfold count_lt. cbn [List.filter]. destruct (Qle_bool v x); reflexivity. Qed.

Lemma count_le_cons v x l :
  count_le v (x :: l) = ((if Qle_bool x v then 1 else 0) + count_le v l)%nat.
Proof. unfold count_le. cbn [List.filter]. destruct (Qle_bool x v); reflexivity. Qed.

(** Nothing below [v] among values that are all at least [w >= v]. *)
Lemma count_lt_above v w l :
  (v <= w)%Q -> Forall (Qle w) l -> count_lt v l = 0%nat.
Proof.
  intros Hvw Hl. induction Hl as [|x l Hx Hl IH]; [reflexivity |].
  rewrite count_lt_cons, IH.
  assert (H : Qle_bool v x = true) by (apply Qle_bool_iff; lra).
  rewrite H. reflexivity.
Qed.

Lemma count_le_above v w l :
  (v < w)%Q -> Forall (Qle w) l -> count_le v l = 0%nat.
Proof.
  intros Hvw Hl. induction Hl as [|x l Hx Hl IH]; [reflexivity |].
  rewrite count_le_cons, IH.
  assert (H : Qle_bool x v = false) by (apply Qle_bool_false; lra).
  rewrite H. reflexivity.
Qed.

Lemma Forall_nth (P : Q -> Prop) l i :
  Forall P l -> (i < length l)%nat -> P (nth i l 0%Q).
Proof.
  intros Hl. revert i. induction Hl as [|x l Hx Hl IH]; intros i Hi.
  - cbn in Hi. lia.
  - destruct i as [|i]; [exact Hx |]. cbn [nth]. apply IH. cbn in Hi. lia.
Qed.

(** In a sorted list, the values below [m] stand before any position
    that holds at least [m]. *)
Lemma count_lt_sorted s b m :
  sorted s -> (b < length s)%nat -> (m <= nth b s 0)%Q -> (count_lt m s <= b)%nat.
Proof.
  revert b. induction s as [|x s IH]; intros b Hsorted Hb Hm; [cbn in Hb; lia |].
  destruct Hsorted as [Hx Hs].
  destruct b as [|b]; cbn [nth] in Hm.
  - rewrite (count_lt_above m x (x :: s)); [lia | exact Hm |].
    constructor; [lra | exact Hx].
  - rewrite count_lt_cons. cbn [length] in Hb.
    specialize (IH b Hs ltac:(lia) Hm). destruct (Qle_bool m x); lia.
Qed.

(** In a sorted list, every position up to one that holds at most [m]
    holds at most [m]. *)
Lemma count_le_sorted s a m :
  sorted s -> (a < length s)%nat -> (nth a s 0 <= m)%Q -> (a < count_le m s)%nat.
Proof.
  revert a. induction s as [|x s IH]; intros a Hsorted Ha Hm; [cbn in Ha; lia |].
  destruct Hsorted as [Hx Hs].
  rewrite count_le_cons. destruct a as [|a]; cbn [nth] in Hm.
  - assert (H : Qle_bool x m = true) by (apply Qle_bool_iff; exact Hm).
    rewrite H. lia.
  - cbn [length] in Ha. specialize (IH a Hs ltac:(lia) Hm).
    pose proof (Forall_nth _ s a Hx ltac:(lia)) as Hxa. cbn beta in Hxa.
    assert (H : Qle_bool x m = true) by (apply Qle_bool_iff; lra).
    rewrite H. lia.
Qed.

(** The value at a position of a sorted list, from the two counts. *)
Lemma nth_sorted_counts s i v :
  sorted s -> (count_lt v s <= i)%nat -> (i < count_le v s)%nat ->
  (nth i s 0 == v)%Q.
Proof.
  revert i. induction s as [|x s IH]; intros i Hsorted Hlt Hle.
  - cbn in Hle. lia.
  - destruct Hsorted as [Hx Hs]. rewrite count_lt_cons in Hlt. rewrite count_le_cons in Hle.
    destruct (Qle_bool v x) eqn:Hvx.
    + apply Qle_bool_iff in Hvx.
      destruct (Qle_bool x v) eqn:Hxv.
      * apply Qle_bool_iff in Hxv. destruct i as [|i]; cbn [nth]; [lra |].
        apply IH; [exact Hs | | lia].
        rewrite (count_lt_above v x s Hvx Hx). lia.
      * apply Qle_bool_false in Hxv.
        rewrite (count_le_above v x s Hxv Hx) in Hle. lia.
    + apply Qle_bool_false in Hvx.
      assert (Hxv : Qle_bool x v = true) by (apply Qle_bool_iff; lra).
      rewrite Hxv in Hle. destruct i as [|i]; [lia |]. cbn [nth].
      apply IH; [exact Hs | lia | lia].
Qed.

Lemma sorted_nth_le s a b :
  sorted s -> (a <= b)%nat -> (b < length s)%nat -> (nth a s 0 <= nth b s 0)%Q.
Proof.
  revert a b. induction s as [|x s IH]; intros a b Hsorted Hab Hb; [cbn in Hb; lia |].
  destruct Hsorted as [Hx Hs].
  cbn [length] in Hb. destruct a as [|a], b as [|b]; cbn [nth]; try lia.
  - lra.
  - apply (Forall_nth _ s b Hx). lia.
  - apply IH; [exact Hs | lia | lia].
Qed.

Ltac halves n :=
  pose proof (Nat.div_mod_eq n 2);
  pose proof (Nat.mod_upper_bound n 2 ltac:(lia)).

Lemma present_known {A : Type} (x : A) column : present (Some x :: column) = x :: present column.
Proof. reflexivity. Qed.

Lemma present_missing {A : Type} (column : list (option A)) :
  present (None :: column) = present column.
Proof. reflexivity. Qed.

Lemma count_missing_known {A : Type} (x : A) column :
  count_missing (Some x :: column) = count_missing column.
Proof. reflexivity. Qed.

Lemma count_missing_missing {A : Type} (column : list (option A)) :
  count_missing (None :: column) = S (count_missing column).
Proof. reflexivity. Qed.

Lemma median_known column :
  present column <> [] -> exists m, median column = Some m.
Proof.
  intros Hne. unfold median.
  destruct (length (sort (present column))) eqn:Hn.
  - rewrite sort_length in Hn. destruct (present column); [congruence | discriminate].
  - destruct (Nat.even (S n)); eexists; reflexivity.
Qed.

Lemma median_unknown column : present column = [] -> median column = None.
Proof. intros H. unfold median. rewrite H. reflexivity. Qed.

Lemma median_cases column :
  present column <> [] ->
  median column =
  let s := sort (present column) in
  let n := length (present column) in
  if Nat.even n
  then Some ((nth (n / 2 - 1) s 0 + nth (n / 2) s 0) / 2)%Q
  else Some (nth (n / 2) s 0%Q).
Proof.
  intros Hne. unfold median. rewrite sort_length.
  destruct (present column) as [|x l]; [congruence | reflexivity].
Qed.

(** The median lies between the two middle values of the sorted column. *)
Lemma median_between column m :
  median column = Some m ->
  (0 < length (present column))%nat /\
  (nth ((length (present column) - 1) / 2) (sort (present column)) 0 <= m)%Q /\
  (m <= nth (length (present column) / 2) (sort (present column)) 0)%Q.
Proof.
  intros Hm.
  assert (Hne : present column <> []).
  { intros Hnil. rewrite (median_unknown column Hnil) in Hm. discriminate. }
  rewrite (median_cases column Hne) in Hm. cbv zeta in Hm.
  set (l := present column) in *. set (n := length l) in *.
  pose proof (sort_sorted l) as Hsorted. pose proof (sort_length l) as Hlen.
  fold n in Hlen.
  assert (Hpos : (0 < n)%nat).
  { subst n. destruct l; [congruence | cbn; lia]. }
  halves n. halves (n - 1)%nat.
  destruct (Nat.even n) eqn:Hpar;
    match type of Hm with
    | Some ?x = _ => assert (Hx : x = m) by congruence; rewrite <- Hx; clear Hx Hm
    end.
  - apply Nat.even_spec in Hpar as [j Hj].
    assert (Ha : ((n - 1) / 2 = n / 2 - 1)%nat) by lia. rewrite Ha.
    pose proof (sorted_nth_le (sort l) (n / 2 - 1) (n / 2) Hsorted ltac:(lia) ltac:(lia)).
    split; [exact Hpos |]. split.
    + apply Qle_shift_div_l; lra.
    + apply Qle_shift_div_r; lra.
  - assert (Ho : Nat.odd n = true) by (rewrite <- Nat.negb_even, Hpar; reflexivity).
    apply Nat.odd_spec in Ho as [j Hj].
    assert (Ha : ((n - 1) / 2 = n / 2)%nat) by lia. rewrite Ha.
    split; [exact Hpos |]. split; lra.
Qed.

Lemma fill_nothing_missing (m : Q) column :
  count_missing column = 0%nat -> map (fillna (Some m)) column = column.
Proof.
  induction column as [|[x|] column IH]; intros H; [reflexivity | | discriminate].
  cbn [map fillna]. f_equal. apply IH. exact H.
Qed.

(** The counts around [m] after the missing cells are filled with [m]. *)
Lemma present_fill_counts (m : Q) column :
  count_lt m (present (map (fillna (Some m)) column)) = count_lt m (present column) /\
  count_le m (present (map (fillna (Some m)) column))
  = (count_le m (present column) + count_missing column)%nat /\
  length (present (map (fillna (Some m)) column))
  = (length (present column) + count_missing column)%nat.
Proof.
  assert (Hmm : Qle_bool m m = true) by (apply Qle_bool_iff; lra).
  induction column as [|[x|] column (IH1 & IH2 & IH3)]; [repeat split | |].
  - cbn [map fillna]. rewrite !present_known, count_missing_known.
    rewrite !count_lt_cons, !count_le_cons, IH1, IH2. cbn [length]. rewrite IH3.
    repeat split; lia.
  - cbn [map fillna]. rewrite present_known, present_missing, count_missing_missing.
    rewrite count_lt_cons, count_le_cons, Hmm, IH1, IH2. cbn [length]. rewrite IH3.
    repeat split; lia.
Qed.

(** Filling the missing cells of a column with its median leaves the
    median where it was. *)
Lemma median_fill column m :
  median column = Some m ->
  exists m', median (map (fillna (Some m)) column) = Some m' /\ (m' == m)%Q.
Proof.
  intros Hm.
  destruct (Nat.eq_dec (count_missing column) 0%nat) as [Hk | Hk].
  { rewrite fill_nothing_missing by exact Hk. exists m. split; [exact Hm | reflexivity]. }
  destruct (median_between column m Hm) as (Hpos & Hlow & Hhigh).
  destruct (present_fill_counts m column) as (Hlt & Hle & Hlen).
  set (l := present column) in *. set (n := length l) in *.
  set (k := count_missing column) in *.
  set (l' := present (map (fillna (Some m)) column)) in *.
  pose proof (sort_sorted l) as Hs. pose proof (sort_sorted l') as Hs'.
  assert (Hbelow : (count_lt m (sort l') <= n / 2)%nat).
  { unfold count_lt at 1. rewrite sort_count. fold (count_lt m l'). rewrite Hlt.
    unfold count_lt. rewrite <- (sort_count _ l). fold (count_lt m (sort l)).
    halves n.
    apply count_lt_sorted; [exact Hs | rewrite sort_length; fold n; lia | exact Hhigh]. }
  assert (Habove : ((n - 1) / 2 + k < count_le m (sort l'))%nat).
  { unfold count_le at 1. rewrite sort_count. fold (count_le m l'). rewrite Hle.
    assert (((n - 1) / 2 < count_le m l)%nat); [| lia].
    unfold count_le. rewrite <- (sort_count _ l). fold (count_le m (sort l)).
    halves (n - 1)%nat.
    apply count_le_sorted; [exact Hs | rewrite sort_length; fold n; lia | exact Hlow]. }
  assert (Hmid : forall i, (n / 2 <= i)%nat -> (i <= (n - 1) / 2 + k)%nat ->
                           (nth i (sort l') 0 == m)%Q).
  { intros i H1 H2. apply nth_sorted_counts; [exact Hs' | lia | lia]. }
  assert (Hne' : l' <> []).
  { intros Hnil. rewrite Hnil in Hlen. cbn in Hlen. lia. }
  rewrite (median_cases _ Hne'). cbv zeta. fold l'. rewrite Hlen.
  halves n. halves (n - 1)%nat. halves (n + k)%nat.
  destruct (Nat.even (n + k)) eqn:Hpar.
  - apply Nat.even_spec in Hpar as [j Hj].
    eexists. split; [reflexivity |].
    rewrite (Hmid ((n + k) / 2 - 1)%nat) by lia.
    rewrite (Hmid ((n + k) / 2)%nat) by lia.
    field.
  - eexists. split; [reflexivity |]. apply Hmid; lia.
Qed.

Lemma present_In {A : Type} (x : A) column : In (Some x) column -> present column <> [].
Proof.
  induction column as [|[y|] column IH]; intros H; [contradiction | | ].
  - rewrite present_known. discriminate.
  - rewrite present_missing. destruct H as [H | H]; [discriminate | apply IH, H].
Qed.

Lemma present_none {A : Type} (column : list (option A)) :
  (forall cell, In cell column -> cell = None) -> present column = [].
Proof.
  induction column as [|cell column IH]; intros H; [reflexivity |].
  rewrite (H cell (or_introl eq_refl)), present_missing.
  apply IH. intros c Hc. apply H. right. exact Hc.
Qed.

(** The fare column of [train] after cell 7, as a column filled with the
    median of the column read from the file. *)
Lemma fill_fare_train train :
  fill_fare (map Raw.Fare train) train =
  map (fillna (median (map Raw.Fare train))) (map Raw.Fare train).
Proof. unfold fill_fare. rewrite map_map. reflexivity. Qed.

(** The rows after the exploratory cells, with the fare each one carries. *)
Lemma explore_fares state train test train' test' state' :
  explore state train test = Ok (train', test', state') ->
  (forall i r, train !! i = Some r ->
     exists age,
       train' !! i
       = Some (explored r (fillna (median (map Raw.Fare train)) (Raw.Fare r)) age)) /\
  (forall i r, test !! i = Some r ->
     exists age,
       test' !! i
       = Some (explored r
                 (fillna (median (fill_fare (map Raw.Fare train) train)) (Raw.Fare r))
                 age)).
Proof.
  intros H.
  apply explore_inv in H as (train_Age & test_Age & state1 & H1 & H2 & -> & ->).
  apply impute_age_length in H1. apply impute_age_length in H2.
  split; intros i r Hi.
  - destruct (assemble_lookup train (fill_fare (map Raw.Fare train) train)
                train_Age i r (fill_fare_length _ _) H1 Hi)
      as (fare & age & Hfare & _ & Hout).
    unfold fill_fare in Hfare at 1.
    rewrite (lookup_map _ _ _ _ Hi) in Hfare. injection Hfare as <-.
    exists age. exact Hout.
  - destruct (assemble_lookup test
                (fill_fare (fill_fare (map Raw.Fare train) train) test)
                test_Age i r (fill_fare_length _ _) H2 Hi)
      as (fare & age & Hfare & _ & Hout).
    unfold fill_fare in Hfare at 1.
    rewrite (lookup_map _ _ _ _ Hi) in Hfare. injection Hfare as <-.
    exists age. exact Hout.
Qed.

Lemma fillna_none {A : Type} (column : list (option A)) : map (fillna None) column = column.
Proof.
  induction column as [|[x|] column IH]; cbn [map fillna]; congruence.
Qed.

(** The two medians that cell 7 uses: both exist when a fare of the
    training file is known, and neither does otherwise. *)
Lemma medians_known train r0 q :
  In r0 train -> Raw.Fare r0 = Some q ->
  (exists m, median (map Raw.Fare train) = Some m) /\
  (exists m, median (fill_fare (map Raw.Fare train) train) = Some m).
Proof.
  intros Hin Hq. split; apply median_known.
  - apply (present_In q). rewrite <- Hq. apply in_map, Hin.
  - apply (present_In q). unfold fill_fare. apply in_map_iff.
    exists r0. split; [rewrite Hq; reflexivity | exact Hin].
Qed.

Lemma medians_unknown train :
  (forall r0, In r0 train -> Raw.Fare r0 = None) ->
  median (map Raw.Fare train) = None /\
  median (fill_fare (map Raw.Fare train) train) = None.
Proof.
  intros Hnone.
  assert (H : median (map Raw.Fare train) = None).
  { apply median_unknown, present_none. intros cell Hc.
    apply in_map_iff in Hc as (r0 & <- & Hr0). apply Hnone, Hr0. }
  split; [exact H |]. rewrite fill_fare_train, H, fillna_none. exact H.
Qed.

(** X5. Cell 7 never changes a known fare. If one fare of the training
    file is known, every row of both frames has a fare afterwards; if
    none is, the missing fares of both frames stay missing. *)
Theorem fares_after_fill state train test train' test' state' raw out i r :
  explore state train test = Ok (train', test', state') ->
  frame_of train test train' test' raw out ->
  raw !! i = Some r ->
  exists e,
    out !! i = Some e /\
    (forall q, Raw.Fare r = Some q -> Eda.Fare e = Some q) /\
    ((exists r0 q, In r0 train /\ Raw.Fare r0 = Some q) ->
     exists q, Eda.Fare e = Some q) /\
    ((forall r0, In r0 train -> Raw.Fare r0 = None) ->
     Raw.Fare r = None -> Eda.Fare e = None).
Proof.
  intros H Hframe Hi.
  destruct (explore_fares _ _ _ _ _ _ H) as [Htrain Htest].
  assert (Hout : exists m age,
             (m = median (map Raw.Fare train) \/
              m = median (fill_fare (map Raw.Fare train) train)) /\
             out !! i = Some (explored r (fillna m (Raw.Fare r)) age)).
  { destruct Hframe as [[-> ->] | [-> ->]].
    - destruct (Htrain i r Hi) as [age Hrow]. eexists. exists age.
      split; [left; reflexivity | exact Hrow].
    - destruct (Htest i r Hi) as [age Hrow]. eexists. exists age.
      split; [right; reflexivity | exact Hrow]. }
  destruct Hout as (m & age & Hm & Hrow).
  eexists. split; [exact Hrow |]. cbn [Eda.Fare explored]. repeat split.
  - intros q ->. reflexivity.
  - intros (r0 & q & Hin & Hq).
    destruct (medians_known train r0 q Hin Hq) as [[m1 H1] [m2 H2]].
    destruct (Raw.Fare r) as [fare|]; [eexists; reflexivity |].
    destruct Hm as [-> | ->]; [rewrite H1 | rewrite H2]; eexists; reflexivity.
  - intros Hnone ->. destruct (medians_unknown train Hnone) as [H1 H2].
    destruct Hm as [-> | ->]; [rewrite H1 | rewrite H2]; reflexivity.
Qed.

Lemma fares_after_fill_witness :
  exists e,
    example_test' !! 1%nat = Some e /\ Eda.Fare e = Some 21.075%Q.
Proof.
  destruct (fares_after_fill example_state example_train example_test
              example_train' example_test' example_state'
              example_test example_test' 1%nat storey)
    as (e & He & _ & _ & _).
  - vm_compute. reflexivity.
  - right. split; reflexivity.
  - reflexivity.
  - exists e. split; [exact He |].
    vm_compute in He. injection He as <-. reflexivity.
Defined.

(** X6. A missing fare of either file is replaced by the median of the
    known fares of the training file: filling the training column first
    does not move the median that the test file then receives. *)
Theorem missing_fare_is_training_median
  state train test train' test' state' raw out i r m :
  explore state train test = Ok (train', test', state') ->
  frame_of train test train' test' raw out ->
  raw !! i = Some r ->
  Raw.Fare r = None ->
  median (map Raw.Fare train) = Some m ->
  exists e q, out !! i = Some e /\ Eda.Fare e = Some q /\ (q == m)%Q.
Proof.
  intros H Hframe Hi Hnone Hm.
  destruct (explore_fares _ _ _ _ _ _ H) as [Htrain Htest].
  destruct Hframe as [[-> ->] | [-> ->]].
  - destruct (Htrain i r Hi) as [age Hrow].
    eexists. exists m. split; [exact Hrow |].
    cbn [Eda.Fare explored]. rewrite Hnone, Hm. split; reflexivity.
  - destruct (Htest i r Hi) as [age Hrow].
    destruct (median_fill _ _ Hm) as (m' & Hm' & Heq).
    eexists. exists m'. split; [exact Hrow |].
    cbn [Eda.Fare explored]. rewrite Hnone, fill_fare_train, Hm, Hm'.
    split; [reflexivity | exact Heq].
Qed.

Lemma missing_fare_is_training_median_witness :
  exists e q,
    example_test' !! 1%nat = Some e /\ Eda.Fare e = Some q /\ (q == 21.075)%Q.
Proof.
  apply (missing_fare_is_training_median example_state example_train example_test
           example_train' example_test' example_state'
           example_test example_test' 1%nat storey).
  - vm_compute. reflexivity.
  - right. split; reflexivity.
  - reflexivity.
  - reflexivity.
  - vm_compute. reflexivity.
Defined.
